(** * Link rewriter of [.github/workflows/wiki_links.sh]

    A shallow embedding of the shell script that rewrites relative links
    ending in [.md] into wiki-style links, and of the [sed] command it runs:

<<
    collect_files() {
        for file in "$1"/*; do
            if [[ -d "$file" ]]; then
                collect_files "$file"
            elif [[ -f "$file" ]]; then
                if [[ "$file" == *.md ]]; then
                    echo "Transforming links in $file"
                    sed -i "s/(.*\/\(.*\)\.md/(\1/g" "$file"
                fi
            fi
        done
    }
    collect_files docs/wiki
    echo "Links transformed successfully!"
>>

    Text is a list of 8-bit characters (bytes, as [sed] sees them in the C
    locale).  The file system is a finite tree: no symbolic links, and
    every directory can be listed. *)

From Stdlib Require Import Ascii String.
From Stdlib Require Import List Bool Arith Lia.
Import ListNotations.

Set Implicit Arguments.

(** ** Text *)

Definition text := list ascii.

(** A string literal as text. *)
Definition str (s : string) : text := list_ascii_of_string s.

Definition LPAREN : ascii := "("%char.
Definition SLASH : ascii := "/"%char.
Definition DOT : ascii := "."%char.
Definition NL : ascii := "010"%char.

Definition text_dec : forall a b : text, {a = b} + {a <> b} :=
  list_eq_dec ascii_dec.

Definition text_eqb (a b : text) : bool :=
  if text_dec a b then true else false.

(** ** The regular expression of the [s] command

    Inside double quotes the shell keeps [\/], [\(], [\)], [\.] and [\1]
    as they are, so [sed] receives [s/(.*\/\(.*\)\.md/(\1/g].  In a basic
    regular expression [(] is an ordinary character, [\(] and [\)] delimit
    group 1, [.*] is a greedy run of arbitrary characters and [\.] is a
    literal dot. *)

Inductive atom : Type :=
| Lit (c : ascii)      (* an ordinary character *)
| DotStar              (* [.*] *)
| GroupOpen            (* [\(] *)
| GroupClose.          (* [\)] *)

Definition link_re : list atom :=
  [Lit LPAREN; DotStar; Lit SLASH; GroupOpen; DotStar; GroupClose;
   Lit DOT; Lit "m"%char; Lit "d"%char].

(** What is left of [link_re] after the group, and after the first [.*]. *)
Definition re_close : list atom :=
  [GroupClose; Lit DOT; Lit "m"%char; Lit "d"%char].

Definition re_slash : list atom := Lit SLASH :: GroupOpen :: DotStar :: re_close.

(** The replacement [(\1]. *)
Inductive ritem : Type :=
| RChr (c : ascii)
| RRef1.

Definition link_repl : list ritem := [RChr LPAREN; RRef1].

(** A match, as the offsets a matcher reports: each field is the part of
    the buffer that starts at the offset (a pointer into the buffer). *)
Record rmatch : Type := mk_rmatch {
  g_so : text;   (* from the start of group 1 *)
  g_eo : text;   (* from the end of group 1 *)
  m_eo : text    (* from the end of the whole match *)
}.

(** [.*] followed by the rest of the expression [k]: the longest run is
    tried first, then shorter ones.  On [link_re] the match found this way
    is the leftmost one and the longest from its start, the match [sed]
    reports (lemma [search_leftmost_longest]). *)
Fixpoint star_greedy (k : text -> option rmatch) (s : text) : option rmatch :=
  match s with
  | [] => k []
  | _ :: s' =>
      match star_greedy k s' with
      | Some m => Some m
      | None => k s
      end
  end.

(** Match [re] at the start of [s]; [gs] and [ge] are the group offsets
    recorded so far. *)
Fixpoint match_here (re : list atom) (gs ge : text) (s : text)
  : option rmatch :=
  match re with
  | [] => Some (mk_rmatch gs ge s)
  | Lit c :: re' =>
      match s with
      | x :: s' => if Ascii.eqb x c then match_here re' gs ge s' else None
      | [] => None
      end
  | DotStar :: re' => star_greedy (match_here re' gs ge) s
  | GroupOpen :: re' => match_here re' s ge s
  | GroupClose :: re' => match_here re' gs s s
  end.

(** The leftmost match in [s]: the text before it and the match. *)
Fixpoint search (re : list atom) (s : text) : option (text * rmatch) :=
  match match_here re s s s with
  | Some m => Some ([], m)
  | None =>
      match s with
      | [] => None
      | c :: s' =>
          match search re s' with
          | Some (pre, m) => Some (c :: pre, m)
          | None => None
          end
      end
  end.

(** The text of group 1. *)
Definition group1 (m : rmatch) : text :=
  firstn (length (g_so m) - length (g_eo m)) (g_so m).

Definition expand (repl : list ritem) (m : rmatch) : text :=
  flat_map (fun r => match r with RChr c => [c] | RRef1 => group1 m end) repl.

(** [s/re/repl/g] on one line: replace the leftmost match, then go on in
    the text after it.  After an empty match one character is copied, so
    that the scan advances.  [fuel] bounds the number of replacements. *)
Fixpoint subst_g (fuel : nat) (re : list atom) (repl : list ritem) (s : text)
  : text :=
  match fuel with
  | 0 => s
  | S fuel' =>
      match search re s with
      | None => s
      | Some (pre, m) =>
          let after := skipn (length pre) s in
          if length after =? length (m_eo m) then
            match after with
            | [] => pre ++ expand repl m
            | c :: rest => pre ++ expand repl m ++ c :: subst_g fuel' re repl rest
            end
          else pre ++ expand repl m ++ subst_g fuel' re repl (m_eo m)
      end
  end.

(** The [s] command of the script on one line. *)
Definition sed_line (line : text) : text :=
  subst_g (S (length line)) link_re link_repl line.

(** ** Lines of a file *)

(** The lines of a file: the text between newlines (the last one is what
    follows the last newline, empty when the file ends in a newline). *)
Fixpoint split_lines (s : text) : list text :=
  match s with
  | [] => [[]]
  | c :: s' =>
      if Ascii.eqb c NL then [] :: split_lines s'
      else match split_lines s' with
           | [] => [[c]]
           | l :: ls => (c :: l) :: ls
           end
  end.

Fixpoint join_lines (ls : list text) : text :=
  match ls with
  | [] => []
  | [l] => l
  | l :: ls' => l ++ NL :: join_lines ls'
  end.

(** [sed] applies the command to every line and writes the lines back, a
    missing final newline staying missing. *)
Definition sed_file (content : text) : text :=
  join_lines (map sed_line (split_lines content)).

(** ** The shape of a link *)

Definition MD : text := [DOT; "m"%char; "d"%char].

(** [s] starts with [.md]. *)
Definition starts_md (s : text) : bool :=
  match s with
  | a :: s1 =>
      Ascii.eqb a DOT &&
      match s1 with
      | b :: s2 =>
          Ascii.eqb b "m"%char &&
          match s2 with
          | c :: _ => Ascii.eqb c "d"%char
          | [] => false
          end
      | [] => false
      end
  | [] => false
  end.

(** [.md] occurs in [s]. *)
Fixpoint contains_md (s : text) : bool :=
  starts_md s || match s with [] => false | _ :: s' => contains_md s' end.

(** The line contains an opening parenthesis, later a slash, later [.md]:
    the shape [(<path>/<name>.md]. *)
Definition Linked (s : text) : Prop :=
  exists a b c d, s = a ++ LPAREN :: b ++ SLASH :: c ++ MD ++ d.

(** The text before and after the first [c]. *)
Fixpoint split_first (c : ascii) (s : text) : option (text * text) :=
  match s with
  | [] => None
  | x :: s' =>
      if Ascii.eqb x c then Some ([], s')
      else match split_first c s' with
           | Some (a, b) => Some (x :: a, b)
           | None => None
           end
  end.

(** A slash occurs in [s], and [.md] after it. *)
Fixpoint slash_md (s : text) : bool :=
  match s with
  | [] => false
  | x :: s' => (Ascii.eqb x SLASH && contains_md s') || slash_md s'
  end.

(** Whether a line has the shape of a link: after its first [(] there is
    a slash, and [.md] after the slash. *)
Definition linked (s : text) : bool :=
  match split_first LPAREN s with
  | Some (_, r) => slash_md r
  | None => false
  end.

(** ** The rewrite, in the words of its description

    The text before the first [(] of the line, then [(], then the text
    between the last [/] before the last [.md] and that [.md], then the
    text after the last [.md]. *)

(** The text before and after the last [c]. *)
Fixpoint split_last (c : ascii) (s : text) : option (text * text) :=
  match s with
  | [] => None
  | x :: s' =>
      match split_last c s' with
      | Some (a, b) => Some (x :: a, b)
      | None => if Ascii.eqb x c then Some ([], s') else None
      end
  end.

(** The text before and after the last [.md]. *)
Fixpoint split_last_md (s : text) : option (text * text) :=
  match s with
  | [] => None
  | x :: s' =>
      match split_last_md s' with
      | Some (a, b) => Some (x :: a, b)
      | None => if starts_md s then Some ([], skipn 3 s) else None
      end
  end.

Definition region_rewrite (line : text) : text :=
  match split_last_md line with
  | None => line
  | Some (upto, post) =>
      match split_last SLASH upto with
      | None => line
      | Some (front, name) =>
          match split_first LPAREN front with
          | None => line
          | Some (pre, _) => pre ++ LPAREN :: name ++ post
          end
      end
  end.

(** ** The file system *)

(** What [docs/wiki] holds: regular files, directories, and entries that
    are neither (the tests [-d] and [-f] both fail on them).  [editable]
    tells whether [sed -i] can read the file and put the new version in
    its place. *)
#[local] Unset Elimination Schemes.
Inductive node : Type :=
| Regular (editable : bool) (content : text)
| Directory (entries : list (text * node))
| Special.
#[local] Set Elimination Schemes.

(** Induction on a tree, the entries of a directory included. *)
Section node_induction.
Variable P : node -> Prop.
Hypothesis P_regular : forall e c, P (Regular e c).
Hypothesis P_special : P Special.
Hypothesis P_directory :
  forall es, Forall (fun p => P (snd p)) es -> P (Directory es).
Fixpoint node_induction (n : node) : P n :=
  match n with
  | Regular e c => P_regular e c
  | Special => P_special
  | Directory es =>
      P_directory
        ((fix go (l : list (text * node)) : Forall (fun p => P (snd p)) l :=
            match l with
            | [] => Forall_nil _
            | p :: l' => Forall_cons p (node_induction (snd p)) (go l')
            end) es)
  end.
End node_induction.

(** What a run writes, and the files its loop reaches.  [seen] is not
    something the script writes: it records, in order, the values of
    [$file] for which the branch of [-f] runs. *)
Record log : Type := mk_log {
  out : list text;    (* lines on standard output *)
  err : list text;    (* lines on standard error *)
  seen : list text    (* the regular files the loop reaches *)
}.

Definition no_log : log := mk_log [] [] [].

Definition log_app (a b : log) : log :=
  mk_log (out a ++ out b) (err a ++ err b) (seen a ++ seen b).

(** [$1/name] *)
Definition path_join (d name : text) : text := d ++ SLASH :: name.

(** The pattern [*] of ["$1"/*] does not match a name that begins with a
    dot. *)
Definition visible (name : text) : bool :=
  match name with
  | c :: _ => negb (Ascii.eqb c DOT)
  | [] => true
  end.

(** [[[ "$file" == *.md ]]] *)
Definition is_md (file : text) : bool :=
  match rev file with
  | a :: r1 =>
      Ascii.eqb a "d"%char &&
      match r1 with
      | b :: r2 =>
          Ascii.eqb b "m"%char &&
          match r2 with
          | c :: _ => Ascii.eqb c DOT
          | [] => false
          end
      | [] => false
      end
  | [] => false
  end.

Definition transforming (file : text) : text :=
  str "Transforming links in " ++ file.

(** What [sed] prints for a file that it cannot read. *)
Definition sed_diagnostic (file : text) : text :=
  str "sed: can't read " ++ file ++ str ": Permission denied".

(** [sed -i "s/(.*\/\(.*\)\.md/(\1/g" "$file"] on a regular file: the new
    content, what [sed] prints on standard error, and its exit status.
    [sed] is not part of the script.  A file that cannot be edited is left
    as it is, and [sed] prints a diagnostic and returns a non-zero status;
    both are here those of a file that [sed] cannot read (status 2).  The
    script looks at neither. *)
Definition sed_i (file : text) (editable : bool) (content : text)
  : text * list text * nat :=
  if editable then (sed_file content, [], 0)
  else (content, [sed_diagnostic file], 2).

(** The [for] loop: the entries of a directory in the order of the
    expansion, the body run on each. *)
Section for_loop.
Variable body : text -> node -> node * log.
Fixpoint for_entries (es : list (text * node)) : list (text * node) * log :=
  match es with
  | [] => ([], no_log)
  | (name, child) :: es' =>
      let r := body name child in
      let rs := for_entries es' in
      ((name, fst r) :: fst rs, log_app (snd r) (snd rs))
  end.
End for_loop.

(** [collect_files "$1"] where [n] is what the path [$1] holds.  The loop
    runs over the visible entries; when there is none the pattern stays
    as it is and names nothing, and so it does when [$1] is no directory. *)
Fixpoint collect_files (d : text) (n : node) {struct n} : node * log :=
  match n with
  | Directory entries =>
      let rs :=
        for_entries
          (fun name child =>
             if visible name then
               let file := path_join d name in
               match child with
               | Directory _ => collect_files file child
               | Regular editable content =>
                   if is_md file then
                     let r := sed_i file editable content in
                     (Regular editable (fst (fst r)),
                      mk_log [transforming file] (snd (fst r)) [file])
                   else (child, mk_log [] [] [file])
               | Special => (child, no_log)
               end
             else (child, no_log))
          entries in
      (Directory (fst rs), snd rs)
  | _ => (n, no_log)
  end.

Definition ROOT : text := str "docs/wiki".

(** [echo line]: the line goes to standard output, the status is 0. *)
Definition echo (line : text) (l : log) : log * nat :=
  (mk_log (out l ++ [line]) (err l) (seen l), 0).

Record run : Type := mk_run {
  fs : node;             (* [docs/wiki] after the run *)
  stdout : list text;
  stderr : list text;
  visited : list text;
  exit_status : nat      (* the status of the last command *)
}.

(** The script: [collect_files docs/wiki], then the final [echo], whose
    status is the status of the script. *)
Definition main (t : node) : run :=
  let r := collect_files ROOT t in
  let e := echo (str "Links transformed successfully!") (snd r) in
  mk_run (fst r) (out (fst e)) (err (fst e)) (seen (fst e)) (snd e).

Definition guide_line : text :=
  str "See [Guide](../other/Getting-Started.md) for details.".

(** A file of three lines, [guide_line] the second. *)
Definition guide_file : text :=
  str "# Wiki" ++ NL :: guide_line ++ NL :: str "The end.".

(** A file whose only line has a parenthesis before the link. *)
Definition notes_example : node :=
  Directory [(str "Notes.md", Regular true (str "(note) see [x](a/b.md)"))].

Definition wiki_example : node :=
  Directory
    [(str "Home.md",
      Regular true (str "See [Guide](../other/Getting-Started.md) for details."));
     (str ".hidden.md", Regular true (str "[a](x/a.md)"));
     (str "notes.txt", Regular true (str "[a](x/a.md)"));
     (str "locked.md", Regular false (str "[a](x/a.md)"));
     (str "sub",
      Directory [(str "Two.md", Regular true (str "[a](x/a.md) and [b](y/b.md)"))])].

(** ** Paths into the tree *)

Fixpoint find_entry (name : text) (es : list (text * node)) : option node :=
  match es with
  | [] => None
  | (n, c) :: es' => if text_eqb n name then Some c else find_entry name es'
  end.

(** The node at a path given by its names, from the root down. *)
Fixpoint lookup (path : list text) (n : node) : option node :=
  match path with
  | [] => Some n
  | name :: rest =>
      match n with
      | Directory es =>
          match find_entry name es with
          | Some c => lookup rest c
          | None => None
          end
      | _ => None
      end
  end.

(** The value of [$file] at a path below [d]. *)
Definition path_string (d : text) (path : list text) : text :=
  fold_left path_join path d.

(** What [path_string] adds to the directory: the names, a slash before
    each. *)
Definition path_tail (path : list text) : text :=
  flat_map (fun name => SLASH :: name) path.

(** Names as a file system has them: no slash in a name, no name twice in
    a directory. *)
Fixpoint nodupb (l : list text) : bool :=
  match l with
  | [] => true
  | x :: l' => negb (existsb (text_eqb x) l') && nodupb l'
  end.

Definition name_ok (name : text) : bool :=
  negb (existsb (Ascii.eqb SLASH) name).

Fixpoint well_formed (n : node) : bool :=
  match n with
  | Directory es =>
      nodupb (map fst es) &&
      forallb (fun p => name_ok (fst p) && well_formed (snd p)) es
  | _ => true
  end.

(** Every regular file can be edited. *)
Fixpoint all_editable (n : node) : bool :=
  match n with
  | Regular e _ => e
  | Directory es => forallb (fun p => all_editable (snd p)) es
  | Special => true
  end.

(** ** The loop body *)

(** The body of the loop for an entry that the pattern names. *)
Definition visit (file : text) (child : node) : node * log :=
  match child with
  | Directory _ => collect_files file child
  | Regular editable content =>
      if is_md file then
        let r := sed_i file editable content in
        (Regular editable (fst (fst r)),
         mk_log [transforming file] (snd (fst r)) [file])
      else (child, mk_log [] [] [file])
  | Special => (child, no_log)
  end.

Definition entry_body (d name : text) (child : node) : node * log :=
  if visible name then visit (path_join d name) child else (child, no_log).

(** ** Notions for further properties of the script *)

(** The tree without the contents of its files: the names, the kinds of
    the entries and whether a file can be edited. *)
Fixpoint skeleton (n : node) : node :=
  match n with
  | Regular e _ => Regular e []
  | Directory es => Directory (map (fun p => (fst p, skeleton (snd p))) es)
  | Special => Special
  end.

(** [Subseq a b]: [a] is [b] with some characters left out. *)
Inductive Subseq : text -> text -> Prop :=
| Subseq_nil : Subseq [] []
| Subseq_keep (x : ascii) (a b : text) : Subseq a b -> Subseq (x :: a) (x :: b)
| Subseq_drop (x : ascii) (a b : text) : Subseq a b -> Subseq a (x :: b).

(** The loop of [collect_files docs/wiki] has no entry to run on: the path
    holds no directory, or a directory whose names all begin with a dot
    (an empty one among them). *)
Definition nothing_to_visit (t : node) : bool :=
  match t with
  | Directory es => forallb (fun p => negb (visible (fst p))) es
  | _ => true
  end.

(** The line of the final [echo]. *)
Definition COMPLETION : text := str "Links transformed successfully!".

(** [s/re/repl/] without the [g] flag: the first match only. *)
Definition subst_first (re : list atom) (repl : list ritem) (s : text) : text :=
  match search re s with
  | None => s
  | Some (pre, m) => pre ++ expand repl m ++ m_eo m
  end.

(** * Proofs *)

(** ** The substitution on sample lines *)

Example sed_line_guide :
  sed_line guide_line = str "See [Guide](Getting-Started) for details.".
Proof. vm_compute. reflexivity. Qed.

Example sed_line_two :
  sed_line (str "[a](x/a.md) and [b](y/b.md)") = str "[a](b)".
Proof. vm_compute. reflexivity. Qed.

Example sed_line_samples :
  sed_line (str "(a/b.md/c.md") = str "(c" /\
  sed_line (str "((a/b.md") = str "(b" /\
  sed_line (str "(a/b.md.md") = str "(b.md" /\
  sed_line (str "(a/x.m.mdd") = str "(x.md" /\
  sed_line (str "(note) see [x](a/b.md)") = str "(b)" /\
  sed_line (str "a/b.md (x") = str "a/b.md (x" /\
  sed_line (str "(/.md") = str "(" /\
  sed_line (str "(a/b.mdx) (c/d") = str "(bx) (c/d" /\
  sed_line (str "(a.md/b") = str "(a.md/b".
Proof. vm_compute. repeat split. Qed.

Example region_rewrite_guide :
  region_rewrite guide_line = str "See [Guide](Getting-Started) for details.".
Proof. vm_compute. reflexivity. Qed.

(** ** Facts about text *)

Lemma starts_md_MD (s : text) : starts_md (MD ++ s) = true.
Proof. reflexivity. Qed.

Lemma starts_md_inv (s : text) :
  starts_md s = true -> s = MD ++ skipn 3 s.
Proof.
  destruct s as [|a [|b [|c s]]]; simpl; intros H;
    rewrite ?andb_false_r in H; try discriminate.
  apply andb_true_iff in H. destruct H as [Ha H].
  apply andb_true_iff in H. destruct H as [Hb Hc].
  apply Ascii.eqb_eq in Ha, Hb, Hc. subst. reflexivity.
Qed.

Lemma contains_md_app (u v : text) :
  contains_md v = true -> contains_md (u ++ v) = true.
Proof.
  induction u as [|x u IH]; intros H; simpl app; [exact H|].
  cbn [contains_md]. rewrite (IH H). apply orb_true_r.
Qed.

Lemma contains_md_split (s : text) :
  contains_md s = true -> exists u v, s = u ++ MD ++ v.
Proof.
  induction s as [|x s IH]; cbn [contains_md]; intros H.
  - discriminate.
  - apply orb_true_iff in H. destruct H as [H|H].
    + exists [], (skipn 3 (x :: s)). apply (starts_md_inv _ H).
    + destruct (IH H) as (u & v & E). exists (x :: u), v. rewrite E. reflexivity.
Qed.

Lemma contains_md_suffix (s u w : text) :
  contains_md s = false -> s = u ++ w -> starts_md w = false.
Proof.
  intros H E. subst s. destruct (starts_md w) eqn:Hw; [|reflexivity].
  rewrite contains_md_app in H; [discriminate|].
  destruct w; cbn [contains_md]; rewrite Hw; reflexivity.
Qed.

Lemma contains_md_tail (s u w : text) :
  contains_md s = false -> s = u ++ w -> contains_md w = false.
Proof.
  intros H E. subst s. destruct (contains_md w) eqn:Hw; [|reflexivity].
  rewrite (contains_md_app u _ Hw) in H. discriminate.
Qed.

(** A proper suffix of [.md] followed by [post] does not start with [.md]
    unless [post] contains one. *)
Lemma MD_proper_suffix (post x w : text) :
  contains_md post = false -> MD ++ post = x ++ w -> x <> [] ->
  starts_md w = false.
Proof.
  intros H E Hx.
  destruct x as [|x0 [|x1 [|x2 x]]]; [congruence| | |]; simpl in E;
    inversion E; subst; try reflexivity.
  eapply contains_md_suffix; eauto.
Qed.

(** From an append equation: the suffix [w] either reaches into [a] or
    lies in [b]. *)
Lemma app_eq_suffix (a b x w : text) :
  a ++ b = x ++ w ->
  (exists a1 a2, a = a1 ++ a2 /\ a2 <> [] /\ w = a2 ++ b) \/
  (exists y, b = y ++ w).
Proof.
  revert x. induction a as [|h a IH]; intros x E.
  - right. exists x. exact E.
  - destruct x as [|x0 x].
    + left. exists [], (h :: a). simpl in *. subst w. repeat split. discriminate.
    + simpl in E. inversion E; subst. destruct (IH _ H1) as [(a1 & a2 & E1 & N & E2)|(y & E1)].
      * left. exists (x0 :: a1), a2. subst. repeat split; auto.
      * right. exists y. exact E1.
Qed.

(** The first occurrence of a character. *)
Lemma first_occurrence (c : ascii) (a t : text) :
  exists pre rest x,
    a ++ c :: t = pre ++ c :: rest /\ ~ In c pre /\ rest = x ++ t.
Proof.
  induction a as [|h a (pre & rest & x & E & N & R)].
  - exists [], t, []. repeat split. intros [].
  - destruct (ascii_dec h c) as [->|Hne].
    + exists [], (a ++ c :: t), (a ++ [c]). repeat split.
      * intros [].
      * rewrite <- app_assoc. reflexivity.
    + exists (h :: pre), rest, x. repeat split; auto.
      * simpl. rewrite E. reflexivity.
      * intros [->|H]; auto.
Qed.

(** The last occurrence of a character. *)
Lemma last_occurrence (c : ascii) (u t : text) :
  exists mid name y,
    u ++ c :: t = mid ++ c :: name /\ ~ In c name /\ mid = u ++ y.
Proof.
  destruct (first_occurrence c (rev t) (rev u)) as (pre & rest & x & E & N & R).
  exists (rev rest), (rev pre), (rev x). repeat split.
  - apply (f_equal (@rev ascii)) in E.
    rewrite !rev_app_distr in E. simpl in E.
    rewrite ?rev_app_distr, ?rev_involutive in E. simpl in E.
    rewrite <- ?app_assoc in E. simpl in E. exact E.
  - intros H. apply N. apply in_rev. exact H.
  - subst rest. rewrite rev_app_distr, rev_involutive. reflexivity.
Qed.

(** The last occurrence of [.md]. *)
Lemma last_md_occurrence (n : nat) : forall (u d : text),
  length d <= n ->
  exists upto post y,
    u ++ MD ++ d = upto ++ MD ++ post /\ contains_md post = false /\
    upto = u ++ y.
Proof.
  induction n as [|n IH]; intros u d Hlen.
  - destruct d; [|simpl in Hlen; lia].
    exists u, [], []. repeat split. rewrite app_nil_r. reflexivity.
  - destruct (contains_md d) eqn:Hd.
    + destruct (contains_md_split _ Hd) as (d1 & d2 & E). subst d.
      destruct (IH (u ++ MD ++ d1) d2) as (upto & post & y & E & Hp & Hu).
      { rewrite !length_app in Hlen. simpl in Hlen. lia. }
      exists upto, post, (MD ++ d1 ++ y). repeat split; auto.
      * rewrite <- E. rewrite <- !app_assoc. reflexivity.
      * rewrite Hu. rewrite <- !app_assoc. reflexivity.
    + exists u, d, []. repeat split; auto. rewrite app_nil_r. reflexivity.
Qed.

(** ** The matcher on the link expression *)

Lemma star_greedy_sound (k : text -> option rmatch) (s : text) (m : rmatch) :
  star_greedy k s = Some m -> exists u w, s = u ++ w /\ k w = Some m.
Proof.
  induction s as [|x s IH]; simpl; intros H.
  - exists [], []. auto.
  - destruct (star_greedy k s) as [m'|] eqn:E.
    + inversion H; subst m'. destruct (IH eq_refl) as (u & w & -> & Hk).
      exists (x :: u), w. auto.
    + exists [], (x :: s). auto.
Qed.

Lemma star_greedy_none (k : text -> option rmatch) (s : text) :
  (forall u w, s = u ++ w -> k w = None) -> star_greedy k s = None.
Proof.
  induction s as [|x s IH]; simpl; intros H.
  - apply (H [] []). reflexivity.
  - rewrite IH.
    + apply (H [] (x :: s)). reflexivity.
    + intros u w E. apply (H (x :: u) w). rewrite E. reflexivity.
Qed.

(** The greedy run stops at the last place where the rest matches. *)
Lemma star_greedy_last (k : text -> option rmatch) (u v : text) (m : rmatch) :
  k v = Some m ->
  (forall x w, v = x ++ w -> x <> [] -> k w = None) ->
  star_greedy k (u ++ v) = Some m.
Proof.
  intros Hk Hlater. induction u as [|x u IH]; simpl.
  - destruct v as [|y v]; simpl; [exact Hk|].
    rewrite star_greedy_none; [exact Hk|].
    intros a w E. apply (Hlater (y :: a) w); [rewrite E; reflexivity|discriminate].
  - rewrite IH. reflexivity.
Qed.

Lemma match_close (gs ge w : text) :
  match_here re_close gs ge w =
  if starts_md w then Some (mk_rmatch gs w (skipn 3 w)) else None.
Proof.
  destruct w as [|a [|b [|c w]]]; simpl;
    repeat match goal with |- context [Ascii.eqb ?x ?y] => destruct (Ascii.eqb x y) end;
    reflexivity.
Qed.

Lemma match_slash_eq (gs ge w : text) :
  match_here re_slash gs ge w =
  match w with
  | x :: w' =>
      if Ascii.eqb x SLASH then star_greedy (match_here re_close w' ge) w'
      else None
  | [] => None
  end.
Proof. destruct w; reflexivity. Qed.

Lemma match_link_eq (gs ge w : text) :
  match_here link_re gs ge w =
  match w with
  | x :: w' =>
      if Ascii.eqb x LPAREN then star_greedy (match_here re_slash gs ge) w'
      else None
  | [] => None
  end.
Proof. destruct w; reflexivity. Qed.

Lemma match_slash_sound (gs ge w : text) (m : rmatch) :
  match_here re_slash gs ge w = Some m ->
  exists c d, w = SLASH :: c ++ MD ++ d.
Proof.
  rewrite match_slash_eq. destruct w as [|x w]; [discriminate|].
  destruct (Ascii.eqb_spec x SLASH) as [->|]; [|discriminate].
  intros H. apply star_greedy_sound in H. destruct H as (c & w' & E & H).
  rewrite match_close in H. destruct (starts_md w') eqn:S; [|discriminate].
  exists c, (skipn 3 w'). rewrite <- (starts_md_inv _ S). rewrite E. reflexivity.
Qed.

Lemma match_link_sound (gs ge w : text) (m : rmatch) :
  match_here link_re gs ge w = Some m ->
  exists b c d, w = LPAREN :: b ++ SLASH :: c ++ MD ++ d.
Proof.
  rewrite match_link_eq. destruct w as [|x w]; [discriminate|].
  destruct (Ascii.eqb_spec x LPAREN) as [->|]; [|discriminate].
  intros H. apply star_greedy_sound in H. destruct H as (b & w' & E & H).
  apply match_slash_sound in H. destruct H as (c & d & ->).
  exists b, c, d. rewrite E. reflexivity.
Qed.

Lemma search_eq (re : list atom) (s : text) :
  search re s =
  match match_here re s s s with
  | Some m => Some ([], m)
  | None =>
      match s with
      | [] => None
      | c :: s' =>
          match search re s' with
          | Some (pre, m) => Some (c :: pre, m)
          | None => None
          end
      end
  end.
Proof. destruct s; reflexivity. Qed.

Lemma search_sound (re : list atom) (s pre : text) (m : rmatch) :
  search re s = Some (pre, m) ->
  exists w, s = pre ++ w /\ match_here re w w w = Some m.
Proof.
  revert pre. induction s as [|x s IH]; intros pre; rewrite search_eq.
  - destruct (match_here re [] [] []) eqn:E; [|discriminate].
    intros H. inversion H; subst. exists []. auto.
  - destruct (match_here re (x :: s) (x :: s) (x :: s)) eqn:E.
    + intros H. inversion H; subst. exists (x :: s). auto.
    + destruct (search re s) as [[p m']|] eqn:Es; [|discriminate].
      intros H. inversion H; subst. destruct (IH _ eq_refl) as (w & -> & Hw).
      exists w. auto.
Qed.

Lemma search_Linked (s pre : text) (m : rmatch) :
  search link_re s = Some (pre, m) -> Linked s.
Proof.
  intros H. apply search_sound in H. destruct H as (w & -> & H).
  apply match_link_sound in H. destruct H as (b & c & d & ->).
  exists pre, b, c, d. reflexivity.
Qed.

(** The match at the opening parenthesis, when the slash is the last one
    before the last [.md]. *)
Lemma match_link_at (gs ge mid name post : text) :
  ~ In SLASH name -> contains_md post = false ->
  match_here link_re gs ge (LPAREN :: mid ++ SLASH :: name ++ MD ++ post) =
  Some (mk_rmatch (name ++ MD ++ post) (MD ++ post) post).
Proof.
  intros Hname Hpost.
  rewrite match_link_eq.
  replace (Ascii.eqb LPAREN LPAREN) with true by reflexivity.
  apply star_greedy_last.
  - rewrite match_slash_eq.
    replace (Ascii.eqb SLASH SLASH) with true by reflexivity.
    apply star_greedy_last.
    + rewrite match_close. reflexivity.
    + intros x w E Hx. rewrite match_close.
      rewrite (@MD_proper_suffix post x w Hpost E Hx). reflexivity.
  - intros x w E Hx. rewrite match_slash_eq.
    destruct w as [|y w]; [reflexivity|].
    destruct (Ascii.eqb_spec y SLASH) as [->|]; [|reflexivity].
    assert (Hsuf : exists z, post = z ++ SLASH :: w).
    { destruct x as [|x0 x]; [congruence|]. simpl in E. inversion E; subst x0.
      clear E. rename H1 into E.
      apply app_eq_suffix in E. destruct E as [(a1 & a2 & E1 & N & E2)|(z & E)].
      - exfalso. destruct a2 as [|a a2]; [congruence|].
        simpl in E2. inversion E2; subst a. apply Hname. rewrite E1.
        apply in_or_app. right. left. reflexivity.
      - change (MD ++ post = z ++ SLASH :: w) in E.
        apply app_eq_suffix in E. destruct E as [(a1 & a2 & E1 & N & E2)|(z' & E)].
        + exfalso. destruct a2 as [|a a2]; [congruence|].
          simpl in E2. inversion E2; subst a.
          assert (Hin : In SLASH MD) by (rewrite E1; apply in_or_app; right; left; reflexivity).
          simpl in Hin. unfold SLASH, DOT in Hin.
          repeat destruct Hin as [Hin|Hin]; try discriminate; contradiction.
        + exists z'. exact E. }
    destruct Hsuf as (z & Ez).
    apply star_greedy_none. intros u v Ev. rewrite match_close.
    rewrite (@contains_md_suffix post (z ++ SLASH :: u) v Hpost); [reflexivity|].
    rewrite Ez, Ev. rewrite <- app_assoc. reflexivity.
Qed.

Lemma match_link_not_paren (gs ge : text) (x : ascii) (s : text) :
  x <> LPAREN -> match_here link_re gs ge (x :: s) = None.
Proof.
  intros H. rewrite match_link_eq.
  destruct (Ascii.eqb_spec x LPAREN); [contradiction|reflexivity].
Qed.

(** The leftmost match starts at the first opening parenthesis. *)
Lemma search_link (pre mid name post : text) :
  ~ In LPAREN pre -> ~ In SLASH name -> contains_md post = false ->
  search link_re (pre ++ LPAREN :: mid ++ SLASH :: name ++ MD ++ post) =
  Some (pre, mk_rmatch (name ++ MD ++ post) (MD ++ post) post).
Proof.
  intros Hpre Hname Hpost. induction pre as [|x pre IH]; rewrite search_eq.
  - rewrite app_nil_l. rewrite match_link_at by assumption. reflexivity.
  - rewrite <- app_comm_cons. rewrite match_link_not_paren.
    + rewrite IH; [reflexivity|]. intros H. apply Hpre. right. exact H.
    + intros ->. apply Hpre. left. reflexivity.
Qed.

(** Every line with the shape of a link has it in a canonical way: at the
    first parenthesis, the last [.md], and the last slash before it. *)
Lemma Linked_canonical (s : text) :
  Linked s ->
  exists pre mid name post,
    s = pre ++ LPAREN :: mid ++ SLASH :: name ++ MD ++ post /\
    ~ In LPAREN pre /\ ~ In SLASH name /\ contains_md post = false.
Proof.
  intros (a & b & c & d & ->).
  destruct (first_occurrence LPAREN a (b ++ SLASH :: c ++ MD ++ d))
    as (pre & rest & x & E & Hpre & Hrest).
  destruct (last_md_occurrence (n := length d) (x ++ b ++ SLASH :: c) d (le_n _))
    as (upto & post & y & E2 & Hpost & Hupto).
  destruct (last_occurrence SLASH (x ++ b) (c ++ y))
    as (mid & name & z & E3 & Hname & Hmid).
  exists pre, mid, name, post. repeat split; auto.
  rewrite E, Hrest.
  replace (x ++ b ++ SLASH :: c ++ MD ++ d)
    with ((x ++ b ++ SLASH :: c) ++ MD ++ d)
    by (rewrite <- !app_assoc; simpl; rewrite <- ?app_assoc; reflexivity).
  rewrite E2, Hupto.
  replace ((x ++ b ++ SLASH :: c) ++ y) with ((x ++ b) ++ SLASH :: c ++ y)
    by (rewrite <- !app_assoc; simpl; rewrite <- ?app_assoc; reflexivity).
  rewrite E3. rewrite <- !app_assoc. reflexivity.
Qed.

Lemma search_none (s : text) : ~ Linked s -> search link_re s = None.
Proof.
  intros H. destruct (search link_re s) as [[pre m]|] eqn:E; [|reflexivity].
  exfalso. apply H. eapply search_Linked; eauto.
Qed.

Lemma Linked_dec (s : text) : {Linked s} + {~ Linked s}.
Proof.
  destruct (search link_re s) as [[pre m]|] eqn:E.
  - left. eapply search_Linked; eauto.
  - right. intros H. destruct (Linked_canonical H)
      as (pre & mid & name & post & -> & H1 & H2 & H3).
    rewrite search_link in E by assumption. discriminate.
Qed.

(** ** The substitution on one line *)

Lemma subst_g_no_match (fuel : nat) (re : list atom) (repl : list ritem)
      (s : text) :
  search re s = None -> subst_g fuel re repl s = s.
Proof. intros H. destruct fuel; simpl; [|rewrite H]; reflexivity. Qed.

Lemma contains_md_not_Linked (s : text) :
  contains_md s = false -> ~ Linked s.
Proof.
  intros H (a & b & c & d & E).
  assert (Hc : contains_md s = true).
  { rewrite E.
    replace (a ++ LPAREN :: b ++ SLASH :: c ++ MD ++ d)
      with ((a ++ LPAREN :: b ++ SLASH :: c) ++ MD ++ d)
      by (rewrite <- !app_assoc; simpl; rewrite <- ?app_assoc; reflexivity).
    apply contains_md_app. reflexivity. }
  congruence.
Qed.

Lemma sed_line_unlinked (s : text) : ~ Linked s -> sed_line s = s.
Proof. intros H. apply subst_g_no_match. apply search_none. exact H. Qed.

Lemma group1_link (name post : text) :
  group1 (mk_rmatch (name ++ MD ++ post) (MD ++ post) post) = name.
Proof.
  unfold group1. cbn [g_so g_eo].
  replace (length (name ++ MD ++ post) - length (MD ++ post)) with (length name)
    by (rewrite !length_app; lia).
  rewrite firstn_app, firstn_all, Nat.sub_diag. simpl. apply app_nil_r.
Qed.

(** One region is replaced, from the first parenthesis to the last [.md],
    whatever the bound on the number of replacements. *)
Lemma subst_g_link (fuel : nat) (pre mid name post : text) :
  ~ In LPAREN pre -> ~ In SLASH name -> contains_md post = false ->
  subst_g (S fuel) link_re link_repl
          (pre ++ LPAREN :: mid ++ SLASH :: name ++ MD ++ post) =
  pre ++ LPAREN :: name ++ post.
Proof.
  intros Hpre Hname Hpost. cbn [subst_g].
  rewrite search_link by assumption. cbn [m_eo].
  rewrite skipn_app, skipn_all, Nat.sub_diag. cbn [skipn app].
  replace (length (LPAREN :: mid ++ SLASH :: name ++ MD ++ post) =? length post)
    with false.
  - unfold expand, link_repl. cbn [flat_map]. rewrite group1_link.
    rewrite subst_g_no_match.
    + rewrite app_nil_r. reflexivity.
    + apply search_none. apply contains_md_not_Linked. exact Hpost.
  - symmetry. apply Nat.eqb_neq. cbn [length].
    rewrite !length_app. cbn [length]. rewrite !length_app. lia.
Qed.

Lemma sed_line_link (pre mid name post : text) :
  ~ In LPAREN pre -> ~ In SLASH name -> contains_md post = false ->
  sed_line (pre ++ LPAREN :: mid ++ SLASH :: name ++ MD ++ post) =
  pre ++ LPAREN :: name ++ post.
Proof. intros. unfold sed_line. apply subst_g_link; assumption. Qed.

(** The bound on the number of replacements is never reached: a larger
    one gives the same line. *)
Lemma sed_line_fuel (fuel : nat) (s : text) :
  subst_g (S fuel) link_re link_repl s = sed_line s.
Proof.
  destruct (Linked_dec s) as [H|H].
  - destruct (Linked_canonical H) as (pre & mid & name & post & -> & H1 & H2 & H3).
    rewrite sed_line_link by assumption. apply subst_g_link; assumption.
  - unfold sed_line. rewrite !subst_g_no_match; auto using search_none.
Qed.

Lemma sed_line_cases (s : text) :
  (~ Linked s /\ sed_line s = s) \/
  (exists pre mid name post,
     s = pre ++ LPAREN :: mid ++ SLASH :: name ++ MD ++ post /\
     ~ In LPAREN pre /\ ~ In SLASH name /\ contains_md post = false /\
     sed_line s = pre ++ LPAREN :: name ++ post).
Proof.
  destruct (Linked_dec s) as [H|H].
  - right. destruct (Linked_canonical H) as (pre & mid & name & post & E & H1 & H2 & H3).
    exists pre, mid, name, post. repeat split; auto.
    rewrite E. apply sed_line_link; assumption.
  - left. split; [exact H|]. apply sed_line_unlinked. exact H.
Qed.

Lemma slash_md_app (u v : text) :
  slash_md v = true -> slash_md (u ++ v) = true.
Proof.
  intros H. induction u as [|x u IH]; [exact H|].
  simpl. rewrite IH. apply orb_true_r.
Qed.

Lemma slash_md_shape (c d : text) : slash_md (SLASH :: c ++ MD ++ d) = true.
Proof.
  cbn [slash_md]. rewrite (contains_md_app c (MD ++ d)) by reflexivity.
  reflexivity.
Qed.

Lemma slash_md_skip (u v : text) :
  ~ In SLASH u -> slash_md (u ++ v) = slash_md v.
Proof.
  induction u as [|x u IH]; intros H; [reflexivity|].
  simpl. destruct (Ascii.eqb_spec x SLASH) as [->|_].
  - exfalso. apply H. left. reflexivity.
  - simpl. apply IH. intros Hin. apply H. right. exact Hin.
Qed.

Lemma slash_md_contains (s : text) :
  slash_md s = true -> contains_md s = true.
Proof.
  induction s as [|x s IH]; [discriminate|].
  cbn [slash_md contains_md]. intros H.
  apply orb_true_iff in H. destruct H as [H|H].
  - apply andb_true_iff in H. destruct H as [_ H]. rewrite H. apply orb_true_r.
  - rewrite (IH H). apply orb_true_r.
Qed.

Lemma first_unique (c : ascii) (pre rest pre' rest' : text) :
  ~ In c pre -> ~ In c pre' ->
  pre ++ c :: rest = pre' ++ c :: rest' -> pre = pre' /\ rest = rest'.
Proof.
  revert pre'. induction pre as [|x pre IH]; intros [|y pre'] H H' E;
    simpl in E; inversion E; subst.
  - auto.
  - exfalso. apply H'. left. reflexivity.
  - exfalso. apply H. left. reflexivity.
  - destruct (IH pre') as [-> ->]; auto.
    + intros Hin. apply H. right. exact Hin.
    + intros Hin. apply H'. right. exact Hin.
Qed.

(** The match found is the leftmost one and, from there, the longest: no
    text of the shape starts before it, none ends after it. *)
Lemma search_leftmost_longest (s pre : text) (m : rmatch) :
  search link_re s = Some (pre, m) ->
  forall a b c d : text,
    s = a ++ LPAREN :: b ++ SLASH :: c ++ MD ++ d ->
    length pre <= length a /\ length (m_eo m) <= length d.
Proof.
  intros S a b c d E.
  assert (L : Linked s) by (exists a, b, c, d; exact E).
  destruct (Linked_canonical L) as (pre0 & mid & name & post & E0 & H1 & H2 & H3).
  rewrite E0 in S. rewrite search_link in S by assumption.
  inversion S; subst pre m. cbn [m_eo]. clear S. split.
  - destruct (first_occurrence LPAREN a (b ++ SLASH :: c ++ MD ++ d))
      as (pre' & rest' & x & E1 & N & R).
    rewrite <- E, E0 in E1. apply first_unique in E1; auto.
    destruct E1 as [-> E1].
    apply (f_equal (@length ascii)) in E. rewrite E0 in E.
    rewrite E1, R in E. rewrite !length_app in E. cbn [length] in E.
    rewrite !length_app in E. lia.
  - destruct (le_lt_dec (length post) (length d)) as [Hle|Hlt]; [exact Hle|].
    exfalso. rewrite E0 in E.
    replace (pre0 ++ LPAREN :: mid ++ SLASH :: name ++ MD ++ post)
      with ((pre0 ++ LPAREN :: mid ++ SLASH :: name) ++ MD ++ post) in E
      by (rewrite <- !app_assoc; cbn [app]; rewrite <- ?app_assoc; reflexivity).
    replace (a ++ LPAREN :: b ++ SLASH :: c ++ MD ++ d)
      with ((a ++ LPAREN :: b ++ SLASH :: c) ++ MD ++ d) in E
      by (rewrite <- !app_assoc; cbn [app]; rewrite <- ?app_assoc; reflexivity).
    apply app_eq_suffix in E.
    destruct E as [(a1 & a2 & _ & _ & E2)|(y & E2)].
    + apply (f_equal (@length ascii)) in E2. rewrite !length_app in E2.
      cbn [length MD] in E2. lia.
    + assert (Hy : y <> []).
      { intros ->. cbn [app] in E2. apply (f_equal (@length ascii)) in E2.
        rewrite !length_app in E2. lia. }
      pose proof (@MD_proper_suffix post y (MD ++ d) H3 E2 Hy) as F.
      rewrite starts_md_MD in F. discriminate F.
Qed.

(** A rewritten line has no link shape left. *)
Lemma rewritten_not_Linked (pre name post : text) :
  ~ In LPAREN pre -> ~ In SLASH name -> contains_md post = false ->
  ~ Linked (pre ++ LPAREN :: name ++ post).
Proof.
  intros Hpre Hname Hpost (a & b & c & d & E).
  destruct (first_occurrence LPAREN a (b ++ SLASH :: c ++ MD ++ d))
    as (pre' & rest' & x & E' & Hpre' & Hrest').
  rewrite E' in E. apply first_unique in E; auto. destruct E as [_ E].
  assert (Hs : slash_md (name ++ post) = true).
  { rewrite E, Hrest'.
    replace (x ++ b ++ SLASH :: c ++ MD ++ d)
      with ((x ++ b) ++ SLASH :: c ++ MD ++ d)
      by (rewrite <- app_assoc; reflexivity).
    apply slash_md_app. apply slash_md_shape. }
  rewrite slash_md_skip in Hs by assumption.
  apply slash_md_contains in Hs. congruence.
Qed.

Lemma sed_line_idempotent (s : text) : sed_line (sed_line s) = sed_line s.
Proof.
  destruct (sed_line_cases s) as [[H E]|(pre & mid & name & post & _ & H1 & H2 & H3 & E)];
    rewrite E.
  - exact E.
  - apply sed_line_unlinked. apply rewritten_not_Linked; assumption.
Qed.

(** The characters of a rewritten line come from the line. *)
Lemma sed_line_incl (s : text) (c : ascii) :
  In c (sed_line s) -> In c s.
Proof.
  destruct (sed_line_cases s) as [[H E]|(pre & mid & name & post & Es & _ & _ & _ & E)];
    rewrite E; [auto|].
  rewrite Es. intros H.
  apply in_app_or in H. destruct H as [H|[H|H]].
  - apply in_or_app. left. exact H.
  - apply in_or_app. right. left. exact H.
  - apply in_or_app. right. right.
    apply in_or_app. right. right.
    apply in_app_or in H. apply in_or_app. destruct H as [H|H]; [left; exact H|].
    right. apply in_or_app. right. exact H.
Qed.

(** ** Lines and files *)

Lemma split_lines_nonempty (s : text) : split_lines s <> [].
Proof.
  destruct s as [|c s]; simpl; [discriminate|].
  destruct (Ascii.eqb c NL); [discriminate|].
  destruct (split_lines s); discriminate.
Qed.

Lemma join_split (s : text) : join_lines (split_lines s) = s.
Proof.
  induction s as [|c s IH]; [reflexivity|]. simpl.
  destruct (Ascii.eqb_spec c NL) as [->|_].
  - pose proof (split_lines_nonempty s) as N.
    destruct (split_lines s) as [|l ls]; [congruence|].
    cbn [join_lines app]. cbn [join_lines] in IH. rewrite IH. reflexivity.
  - pose proof (split_lines_nonempty s) as N.
    destruct (split_lines s) as [|l ls]; [congruence|].
    destruct ls as [|l' ls]; simpl in *; rewrite IH; reflexivity.
Qed.

Lemma split_lines_no_newline (s : text) :
  Forall (fun l => ~ In NL l) (split_lines s).
Proof.
  induction s as [|c s IH]; simpl.
  - constructor; [intros []|constructor].
  - destruct (Ascii.eqb_spec c NL) as [->|Hc].
    + constructor; [intros []|exact IH].
    + destruct (split_lines s) as [|l ls]; [|inversion IH; subst];
        constructor; auto.
      * intros [H|[]]. congruence.
      * intros [H|H]; [congruence|auto].
Qed.

Lemma split_line_only (l : text) : ~ In NL l -> split_lines l = [l].
Proof.
  induction l as [|c l IH]; intros H; [reflexivity|]. simpl.
  destruct (Ascii.eqb_spec c NL) as [->|_].
  - exfalso. apply H. left. reflexivity.
  - rewrite IH; [reflexivity|]. intros Hin. apply H. right. exact Hin.
Qed.

Lemma split_lines_cons (l rest : text) :
  ~ In NL l -> split_lines (l ++ NL :: rest) = l :: split_lines rest.
Proof.
  induction l as [|c l IH]; intros H.
  - reflexivity.
  - simpl. destruct (Ascii.eqb_spec c NL) as [->|_].
    + exfalso. apply H. left. reflexivity.
    + rewrite IH; [reflexivity|]. intros Hin. apply H. right. exact Hin.
Qed.

Lemma split_join (ls : list text) :
  ls <> [] -> Forall (fun l => ~ In NL l) ls ->
  split_lines (join_lines ls) = ls.
Proof.
  induction ls as [|l ls IH]; intros N F; [congruence|].
  inversion F; subst. destruct ls as [|l' ls].
  - simpl. apply split_line_only. assumption.
  - change (join_lines (l :: l' :: ls)) with (l ++ NL :: join_lines (l' :: ls)).
    rewrite split_lines_cons by assumption. rewrite IH; [reflexivity|discriminate|assumption].
Qed.

(** [sed] rewrites a file line by line. *)
Lemma split_sed_file (content : text) :
  split_lines (sed_file content) = map sed_line (split_lines content).
Proof.
  unfold sed_file. apply split_join.
  - pose proof (split_lines_nonempty content).
    destruct (split_lines content); [congruence|discriminate].
  - apply Forall_forall. intros l Hl. apply in_map_iff in Hl.
    destruct Hl as (l0 & <- & Hl0). intros Hin. apply sed_line_incl in Hin.
    pose proof (split_lines_no_newline content) as F.
    rewrite Forall_forall in F. exact (F _ Hl0 Hin).
Qed.

Lemma sed_file_idempotent (content : text) :
  sed_file (sed_file content) = sed_file content.
Proof.
  unfold sed_file at 1. rewrite split_sed_file. rewrite map_map.
  unfold sed_file. f_equal. apply map_ext. intros l. apply sed_line_idempotent.
Qed.

Example main_wiki_example :
  main wiki_example =
  mk_run
    (Directory
       [(str "Home.md",
         Regular true (str "See [Guide](Getting-Started) for details."));
        (str ".hidden.md", Regular true (str "[a](x/a.md)"));
        (str "notes.txt", Regular true (str "[a](x/a.md)"));
        (str "locked.md", Regular false (str "[a](x/a.md)"));
        (str "sub", Directory [(str "Two.md", Regular true (str "[a](b)"))])])
    [str "Transforming links in docs/wiki/Home.md";
     str "Transforming links in docs/wiki/locked.md";
     str "Transforming links in docs/wiki/sub/Two.md";
     str "Links transformed successfully!"]
    [str "sed: can't read docs/wiki/locked.md: Permission denied"]
    [str "docs/wiki/Home.md"; str "docs/wiki/notes.txt";
     str "docs/wiki/locked.md"; str "docs/wiki/sub/Two.md"]
    0.
Proof. vm_compute. reflexivity. Qed.

Lemma collect_files_directory (d : text) (es : list (text * node)) :
  collect_files d (Directory es) =
  (Directory (fst (for_entries (entry_body d) es)),
   snd (for_entries (entry_body d) es)).
Proof. reflexivity. Qed.

Lemma collect_files_visit (d : text) (n : node) :
  collect_files d n =
  match n with
  | Directory _ => visit d n
  | _ => (n, no_log)
  end.
Proof. destruct n; reflexivity. Qed.

Lemma text_eqb_eq (a b : text) : text_eqb a b = true <-> a = b.
Proof.
  unfold text_eqb. destruct (text_dec a b); split; congruence.
Qed.

Lemma text_eqb_refl (a : text) : text_eqb a a = true.
Proof. apply text_eqb_eq. reflexivity. Qed.

Lemma find_entry_for_entries (body : text -> node -> node * log)
      (name : text) (es : list (text * node)) :
  find_entry name (fst (for_entries body es)) =
  option_map (fun c => fst (body name c)) (find_entry name es).
Proof.
  induction es as [|[n c] es IH]; [reflexivity|].
  cbn [for_entries fst find_entry].
  destruct (text_eqb n name) eqn:E.
  - apply text_eqb_eq in E. subst n. reflexivity.
  - exact IH.
Qed.

Lemma path_string_cons (d name : text) (rest : list text) :
  path_string d (name :: rest) = path_string (path_join d name) rest.
Proof. reflexivity. Qed.

Lemma path_string_snoc (d name : text) (path : list text) :
  path_string d (path ++ [name]) = path_join (path_string d path) name.
Proof. unfold path_string. rewrite fold_left_app. reflexivity. Qed.

(** What a run leaves at a path: the loop body has run on it when all the
    names on the path are visible, and nothing has touched it otherwise. *)
Lemma lookup_visit (path : list text) : forall (file : text) (n : node),
  lookup path (fst (visit file n)) =
  option_map
    (fun c => if forallb visible path
              then fst (visit (path_string file path) c) else c)
    (lookup path n).
Proof.
  induction path as [|name rest IH]; intros file n.
  - reflexivity.
  - destruct n as [e c|es|].
    + simpl. destruct (is_md file); reflexivity.
    + cbn [visit]. rewrite collect_files_directory. cbn [fst lookup].
      rewrite find_entry_for_entries.
      destruct (find_entry name es) as [c|]; [|reflexivity].
      cbn [option_map forallb]. unfold entry_body.
      destruct (visible name); cbn [fst andb].
      * rewrite IH. rewrite path_string_cons. reflexivity.
      * destruct (lookup rest c); reflexivity.
    + reflexivity.
Qed.

Lemma lookup_main (path : list text) (t : node) :
  path <> [] ->
  lookup path (fs (main t)) =
  option_map
    (fun c => if forallb visible path
              then fst (visit (path_string ROOT path) c) else c)
    (lookup path t).
Proof.
  intros N. unfold main. cbn [fs]. rewrite collect_files_visit.
  destruct t as [e c|es|].
  - destruct path; [congruence|reflexivity].
  - apply lookup_visit.
  - destruct path; [congruence|reflexivity].
Qed.

Lemma is_md_join (d name : text) : is_md (path_join d name) = is_md name.
Proof.
  unfold is_md, path_join. rewrite rev_app_distr. cbn [rev].
  rewrite <- app_assoc.
  destruct (rev name) as [|a [|b [|c r]]]; cbn [app];
    rewrite ?andb_false_r; reflexivity.
Qed.

Lemma is_md_path_string (d name : text) (path : list text) :
  is_md (path_string d (path ++ [name])) = is_md name.
Proof. rewrite path_string_snoc. apply is_md_join. Qed.

(** The content of a regular file after a run. *)
Lemma lookup_main_regular (path : list text) (t : node) (e : bool) (c : text) :
  path <> [] -> lookup path t = Some (Regular e c) ->
  lookup path (fs (main t)) =
  Some (Regular e
          (if forallb visible path && is_md (path_string ROOT path) && e
           then sed_file c else c)).
Proof.
  intros N H. rewrite lookup_main by assumption. rewrite H. cbn [option_map].
  destruct (forallb visible path); [|reflexivity].
  cbn [visit andb]. destruct (is_md (path_string ROOT path)); [|reflexivity].
  destruct e; reflexivity.
Qed.

(** ** What the loop reaches and prints *)

Lemma seen_for_entries (body : text -> node -> node * log)
      (es : list (text * node)) :
  seen (snd (for_entries body es)) =
  flat_map (fun p => seen (snd (body (fst p) (snd p)))) es.
Proof.
  induction es as [|[n c] es IH]; [reflexivity|].
  cbn [for_entries snd log_app seen flat_map fst]. rewrite IH. reflexivity.
Qed.

Lemma err_for_entries (body : text -> node -> node * log)
      (es : list (text * node)) :
  err (snd (for_entries body es)) =
  flat_map (fun p => err (snd (body (fst p) (snd p)))) es.
Proof.
  induction es as [|[n c] es IH]; [reflexivity|].
  cbn [for_entries snd log_app err flat_map fst]. rewrite IH. reflexivity.
Qed.

Lemma out_for_entries (body : text -> node -> node * log)
      (es : list (text * node)) :
  out (snd (for_entries body es)) =
  flat_map (fun p => out (snd (body (fst p) (snd p)))) es.
Proof.
  induction es as [|[n c] es IH]; [reflexivity|].
  cbn [for_entries snd log_app out flat_map fst]. rewrite IH. reflexivity.
Qed.

Lemma find_entry_In (name : text) (es : list (text * node)) (c : node) :
  find_entry name es = Some c -> In (name, c) es.
Proof.
  induction es as [|[n c'] es IH]; simpl; [discriminate|].
  destruct (text_eqb n name) eqn:E.
  - apply text_eqb_eq in E. intros H. inversion H; subst. left. reflexivity.
  - intros H. right. apply IH. exact H.
Qed.

(** Every file the loop reaches lies at a path of visible names. *)
Lemma seen_visit_path (n : node) : forall (file f : text),
  In f (seen (snd (visit file n))) ->
  exists path, f = path_string file path /\ forallb visible path = true.
Proof.
  induction n as [e c| |es IH] using node_induction; intros file f H.
  - exists []. split; [|reflexivity].
    simpl in H. destruct (is_md file); simpl in H; destruct H as [H|[]]; auto.
  - destruct H.
  - cbn [visit] in H. rewrite collect_files_directory in H. cbn [snd] in H.
    rewrite seen_for_entries in H. apply in_flat_map in H.
    destruct H as ([name child] & Hin & H). cbn [fst snd] in H.
    unfold entry_body in H. destruct (visible name) eqn:V; [|destruct H].
    rewrite Forall_forall in IH. specialize (IH _ Hin _ _ H).
    destruct IH as (path & -> & Hv). exists (name :: path). split.
    + reflexivity.
    + cbn [forallb]. rewrite V, Hv. reflexivity.
Qed.

Lemma path_string_tail (path : list text) : forall d,
  path_string d path = d ++ path_tail path.
Proof.
  induction path as [|name rest IH]; intros d.
  - simpl. rewrite app_nil_r. reflexivity.
  - rewrite path_string_cons, IH. unfold path_join.
    rewrite <- app_assoc. reflexivity.
Qed.

Lemma path_tail_head (path : list text) :
  path_tail path = [] \/ exists r, path_tail path = SLASH :: r.
Proof. destruct path; [left|right; eexists]; reflexivity. Qed.

Lemma name_ok_spec (name : text) : name_ok name = true -> ~ In SLASH name.
Proof.
  unfold name_ok. intros H Hin.
  apply negb_true_iff in H.
  assert (E : existsb (Ascii.eqb SLASH) name = true).
  { apply existsb_exists. exists SLASH. split; [exact Hin|reflexivity]. }
  congruence.
Qed.

Lemma name_prefix_unique (n1 : text) : forall (n2 r1 r2 : text),
  ~ In SLASH n1 -> ~ In SLASH n2 ->
  (r1 = [] \/ exists r, r1 = SLASH :: r) ->
  (r2 = [] \/ exists r, r2 = SLASH :: r) ->
  n1 ++ r1 = n2 ++ r2 -> n1 = n2.
Proof.
  induction n1 as [|x n1 IH]; intros [|y n2] r1 r2 H1 H2 T1 T2 E.
  - reflexivity.
  - exfalso. simpl in E. destruct T1 as [->|(r & ->)]; [discriminate|].
    inversion E; subst. apply H2. left. reflexivity.
  - exfalso. simpl in E. destruct T2 as [->|(r & ->)]; [discriminate|].
    inversion E; subst. apply H1. left. reflexivity.
  - simpl in E. inversion E; subst. f_equal.
    apply (IH n2 r1 r2); auto.
    + intros Hin. apply H1. right. exact Hin.
    + intros Hin. apply H2. right. exact Hin.
Qed.

(** Files below different entries of a directory have different paths. *)
Lemma path_string_entry_inj (d n1 n2 : text) (p1 p2 : list text) :
  name_ok n1 = true -> name_ok n2 = true ->
  path_string d (n1 :: p1) = path_string d (n2 :: p2) -> n1 = n2.
Proof.
  intros H1 H2 E. rewrite !path_string_cons, !path_string_tail in E.
  unfold path_join in E. rewrite <- !app_assoc in E.
  apply app_inv_head in E. cbn [app] in E. inversion E as [E'].
  apply (@name_prefix_unique n1 n2 (path_tail p1) (path_tail p2)
           (name_ok_spec _ H1) (name_ok_spec _ H2)
           (path_tail_head p1) (path_tail_head p2) E').
Qed.

Lemma count_occ_flat_map_zero (A : Type) (g : A -> list text) (l : list A)
      (x : text) :
  (forall a, In a l -> ~ In x (g a)) ->
  count_occ text_dec (flat_map g l) x = 0.
Proof.
  intros H. apply count_occ_not_In. intros Hin. apply in_flat_map in Hin.
  destruct Hin as (a & Ha & Hx). exact (H a Ha Hx).
Qed.

Lemma existsb_text_eqb (x : text) (l : list text) :
  existsb (text_eqb x) l = false -> ~ In x l.
Proof.
  intros H Hin.
  assert (E : existsb (text_eqb x) l = true).
  { apply existsb_exists. exists x. split; [exact Hin|apply text_eqb_refl]. }
  congruence.
Qed.

(** A file below [name] is not reached through another entry. *)
Lemma seen_other_entry (d name n' : text) (child' : node) (rest : list text) :
  name_ok name = true -> name_ok n' = true -> n' <> name ->
  ~ In (path_string d (name :: rest)) (seen (snd (entry_body d n' child'))).
Proof.
  intros Hn Hn' Hne Hin. unfold entry_body in Hin.
  destruct (visible n'); [|destruct Hin].
  apply seen_visit_path in Hin. destruct Hin as (p' & E & _).
  change (path_string (path_join d n') p') with (path_string d (n' :: p')) in E.
  apply Hne. symmetry. eapply path_string_entry_inj; eauto.
Qed.

Lemma seen_entries_once (d name : text) (rest : list text) (child : node) :
  forall es : list (text * node),
  nodupb (map fst es) = true ->
  forallb (fun p => name_ok (fst p) && well_formed (snd p)) es = true ->
  find_entry name es = Some child ->
  visible name = true ->
  count_occ text_dec (seen (snd (visit (path_join d name) child)))
            (path_string d (name :: rest)) = 1 ->
  count_occ text_dec
            (flat_map (fun p => seen (snd (entry_body d (fst p) (snd p)))) es)
            (path_string d (name :: rest)) = 1.
Proof.
  induction es as [|[n' child'] es IH]; intros Wn We L V C; [discriminate|].
  cbn [find_entry] in L. cbn [map fst nodupb] in Wn.
  apply andb_true_iff in Wn. destruct Wn as [Wn1 Wn2].
  apply negb_true_iff in Wn1. apply existsb_text_eqb in Wn1.
  cbn [forallb fst snd] in We. apply andb_true_iff in We.
  destruct We as [We1 We2]. apply andb_true_iff in We1.
  destruct We1 as [Wname Wchild].
  assert (Hok : forall a, In a es -> name_ok (fst a) = true).
  { intros a Ha. rewrite forallb_forall in We2. specialize (We2 a Ha).
    apply andb_true_iff in We2. tauto. }
  cbn [flat_map fst snd]. rewrite count_occ_app.
  destruct (text_eqb n' name) eqn:E.
  - apply text_eqb_eq in E. subst n'. inversion L; subst child'.
    unfold entry_body at 1. rewrite V, C.
    rewrite count_occ_flat_map_zero; [reflexivity|].
    intros [n2 c2] Ha. cbn [fst snd]. apply seen_other_entry; auto.
    + apply (Hok _ Ha).
    + intros ->. apply Wn1. apply in_map_iff. exists (name, c2). auto.
  - rewrite (IH Wn2 We2 L V C).
    assert (Hname : name_ok name = true).
    { apply find_entry_In in L. apply (Hok _ L). }
    assert (Z : count_occ text_dec (seen (snd (entry_body d n' child')))
                          (path_string d (name :: rest)) = 0).
    { apply count_occ_not_In. apply seen_other_entry; auto.
      intros ->. rewrite text_eqb_refl in E. discriminate. }
    rewrite Z. reflexivity.
Qed.

Lemma well_formed_child (name : text) (es : list (text * node)) (c : node) :
  forallb (fun p => name_ok (fst p) && well_formed (snd p)) es = true ->
  find_entry name es = Some c -> well_formed c = true.
Proof.
  intros W L. apply find_entry_In in L. rewrite forallb_forall in W.
  specialize (W _ L). apply andb_true_iff in W. tauto.
Qed.

(** The loop reaches a regular file at a visible path exactly once. *)
Lemma seen_visit_once (path : list text) :
  forall (file : text) (n : node) (e : bool) (c : text),
  well_formed n = true ->
  lookup path n = Some (Regular e c) ->
  forallb visible path = true ->
  count_occ text_dec (seen (snd (visit file n))) (path_string file path) = 1.
Proof.
  induction path as [|name rest IH]; intros file n e c W L V.
  - simpl in L. inversion L; subst n. cbn [path_string fold_left visit].
    destruct (is_md file); cbn [snd seen count_occ];
      destruct (text_dec file file); congruence.
  - destruct n as [e' c'|es|]; try discriminate.
    cbn [lookup] in L. cbn [forallb] in V. apply andb_true_iff in V.
    destruct V as [Vn Vr].
    cbn [well_formed] in W. apply andb_true_iff in W. destruct W as [Wn We].
    cbn [visit]. rewrite collect_files_directory. cbn [snd].
    rewrite seen_for_entries.
    destruct (find_entry name es) as [child|] eqn:F; [|discriminate].
    apply seen_entries_once with (child := child); auto.
    rewrite path_string_cons. apply (IH _ _ e c); auto.
    eapply well_formed_child; eauto.
Qed.

(** The messages on standard output name the markdown files reached. *)
Lemma out_visit (n : node) : forall file : text,
  out (snd (visit file n)) =
  map transforming (filter is_md (seen (snd (visit file n)))).
Proof.
  induction n as [e c| |es IH] using node_induction; intros file.
  - cbn [visit]. destruct (is_md file) eqn:M; cbn [snd out seen filter];
      rewrite M; reflexivity.
  - reflexivity.
  - cbn [visit]. rewrite collect_files_directory. cbn [snd].
    rewrite out_for_entries, seen_for_entries.
    induction es as [|[name child] es IHes]; [reflexivity|].
    inversion IH; subst. cbn [flat_map fst snd].
    rewrite filter_app, map_app. rewrite IHes by assumption. f_equal.
    unfold entry_body. destruct (visible name); [|reflexivity].
    apply H1.
Qed.

(** [sed] complains about the markdown files reached that it cannot
    edit. *)
Lemma err_visit_failed (path : list text) :
  forall (file : text) (n : node) (c : text),
  lookup path n = Some (Regular false c) ->
  forallb visible path = true ->
  is_md (path_string file path) = true ->
  In (sed_diagnostic (path_string file path)) (err (snd (visit file n))).
Proof.
  induction path as [|name rest IH]; intros file n c L V M.
  - simpl in L. inversion L; subst n. cbn [path_string fold_left] in *.
    cbn [visit]. rewrite M. left. reflexivity.
  - destruct n as [e' c'|es|]; try discriminate.
    cbn [lookup] in L. cbn [forallb] in V. apply andb_true_iff in V.
    destruct V as [Vn Vr].
    destruct (find_entry name es) as [child|] eqn:F; [|discriminate].
    cbn [visit]. rewrite collect_files_directory. cbn [snd].
    rewrite err_for_entries. apply in_flat_map.
    exists (name, child). split; [apply find_entry_In; exact F|].
    cbn [fst snd]. unfold entry_body. rewrite Vn.
    rewrite path_string_cons in *. apply (IH _ _ c); auto.
Qed.

(** When every file can be edited nothing goes to standard error. *)
Lemma err_visit_editable (n : node) : forall file : text,
  all_editable n = true -> err (snd (visit file n)) = [].
Proof.
  induction n as [e c| |es IH] using node_induction; intros file A.
  - cbn [all_editable] in A. subst e. cbn [visit].
    destruct (is_md file); reflexivity.
  - reflexivity.
  - cbn [visit]. rewrite collect_files_directory. cbn [snd].
    rewrite err_for_entries. cbn [all_editable] in A.
    induction es as [|[name child] es IHes]; [reflexivity|].
    inversion IH; subst. cbn [forallb snd] in A.
    apply andb_true_iff in A. destruct A as [A1 A2].
    cbn [flat_map fst snd]. rewrite IHes by assumption.
    rewrite app_nil_r. unfold entry_body. destruct (visible name); [|reflexivity].
    apply H1. exact A1.
Qed.

(** ** Running twice *)

Lemma for_entries_idempotent (body : text -> node -> node * log)
      (es : list (text * node)) :
  Forall (fun p => body (fst p) (fst (body (fst p) (snd p)))
                   = body (fst p) (snd p)) es ->
  for_entries body (fst (for_entries body es)) = for_entries body es.
Proof.
  induction 1 as [|[name child] es H F IH]; [reflexivity|].
  cbn [for_entries fst snd] in *. rewrite H, IH. reflexivity.
Qed.

Lemma visit_idempotent (n : node) : forall file : text,
  visit file (fst (visit file n)) = visit file n.
Proof.
  induction n as [e c| |es IH] using node_induction; intros file.
  - cbn [visit]. destruct (is_md file) eqn:M; cbn [fst visit]; rewrite M.
    + destruct e; cbn [sed_i fst snd]; [|reflexivity].
      rewrite sed_file_idempotent. reflexivity.
    + reflexivity.
  - reflexivity.
  - cbn [visit]. rewrite collect_files_directory. cbn [fst visit].
    rewrite collect_files_directory.
    rewrite for_entries_idempotent; [reflexivity|].
    apply Forall_forall. intros [name child] Hin. cbn [fst snd].
    rewrite Forall_forall in IH. specialize (IH _ Hin). cbn [snd] in IH.
    unfold entry_body. destruct (visible name); cbn [fst]; [apply IH|reflexivity].
Qed.

Lemma collect_files_idempotent (d : text) (n : node) :
  collect_files d (fst (collect_files d n)) = collect_files d n.
Proof.
  destruct n as [e c|es|]; try reflexivity.
  apply (visit_idempotent (Directory es) d).
Qed.

(** ** The three cuts of a line *)

Lemma split_first_sound (c : ascii) (s a b : text) :
  split_first c s = Some (a, b) -> s = a ++ c :: b /\ ~ In c a.
Proof.
  revert a. induction s as [|x s IH]; intros a; simpl; [discriminate|].
  destruct (Ascii.eqb_spec x c) as [->|Hne].
  - intros H. inversion H; subst. split; [reflexivity|intros []].
  - destruct (split_first c s) as [[a' b']|]; [|discriminate].
    intros H. inversion H; subst. destruct (IH a' eq_refl) as [-> N].
    split; [reflexivity|]. intros [Hx|Hin]; [congruence|auto].
Qed.

Lemma split_first_app (c : ascii) (pre rest : text) :
  ~ In c pre -> split_first c (pre ++ c :: rest) = Some (pre, rest).
Proof.
  induction pre as [|x pre IH]; intros H; simpl.
  - rewrite Ascii.eqb_refl. reflexivity.
  - destruct (Ascii.eqb_spec x c) as [->|_].
    + exfalso. apply H. left. reflexivity.
    + rewrite IH; [reflexivity|]. intros Hin. apply H. right. exact Hin.
Qed.

Lemma split_last_sound (c : ascii) (s a b : text) :
  split_last c s = Some (a, b) -> s = a ++ c :: b.
Proof.
  revert a. induction s as [|x s IH]; intros a; simpl; [discriminate|].
  destruct (split_last c s) as [[a' b']|].
  - intros H. inversion H; subst. rewrite (IH a' eq_refl). reflexivity.
  - destruct (Ascii.eqb_spec x c) as [->|_]; [|discriminate].
    intros H. inversion H; subst. reflexivity.
Qed.

Lemma split_last_none (c : ascii) (s : text) :
  ~ In c s -> split_last c s = None.
Proof.
  induction s as [|x s IH]; intros H; simpl; [reflexivity|].
  rewrite IH by (intros Hin; apply H; right; exact Hin).
  destruct (Ascii.eqb_spec x c) as [->|_]; [|reflexivity].
  exfalso. apply H. left. reflexivity.
Qed.

Lemma split_last_app (c : ascii) (mid name : text) :
  ~ In c name -> split_last c (mid ++ c :: name) = Some (mid, name).
Proof.
  intros H. induction mid as [|x mid IH]; simpl.
  - rewrite split_last_none by assumption. rewrite Ascii.eqb_refl. reflexivity.
  - rewrite IH. reflexivity.
Qed.

Lemma split_last_md_sound (s a b : text) :
  split_last_md s = Some (a, b) -> s = a ++ MD ++ b.
Proof.
  revert a b. induction s as [|x s IH]; intros a b; [discriminate|].
  cbn [split_last_md]. destruct (split_last_md s) as [[a' b']|].
  - intros H. inversion H; subst. rewrite (IH a' b eq_refl). reflexivity.
  - destruct (starts_md (x :: s)) eqn:S; [|discriminate].
    intros H. inversion H; subst. apply (starts_md_inv _ S).
Qed.

Lemma split_last_md_none (s : text) :
  contains_md s = false -> split_last_md s = None.
Proof.
  induction s as [|x s IH]; intros H; [reflexivity|].
  cbn [contains_md] in H. apply orb_false_iff in H. destruct H as [H1 H2].
  cbn [split_last_md]. rewrite (IH H2), H1. reflexivity.
Qed.

Lemma split_last_md_app (upto post : text) :
  contains_md post = false ->
  split_last_md (upto ++ MD ++ post) = Some (upto, post).
Proof.
  intros H. induction upto as [|x upto IH].
  - cbn [app MD split_last_md].
    rewrite split_last_md_none.
    + reflexivity.
    + cbn [contains_md starts_md]. exact H.
  - rewrite <- app_comm_cons. cbn [split_last_md]. rewrite IH. reflexivity.
Qed.

(** The cuts of a line that has the shape of a link. *)
Lemma cuts_of_link (pre mid name post : text) :
  ~ In LPAREN pre -> ~ In SLASH name -> contains_md post = false ->
  let line := pre ++ LPAREN :: mid ++ SLASH :: name ++ MD ++ post in
  split_first LPAREN line = Some (pre, mid ++ SLASH :: name ++ MD ++ post) /\
  split_last_md line = Some (pre ++ LPAREN :: mid ++ SLASH :: name, post) /\
  split_last SLASH (pre ++ LPAREN :: mid ++ SLASH :: name)
  = Some (pre ++ LPAREN :: mid, name) /\
  split_first LPAREN (pre ++ LPAREN :: mid) = Some (pre, mid).
Proof.
  intros Hpre Hname Hpost line. subst line. repeat split.
  - apply split_first_app. exact Hpre.
  - replace (pre ++ LPAREN :: mid ++ SLASH :: name ++ MD ++ post)
      with ((pre ++ LPAREN :: mid ++ SLASH :: name) ++ MD ++ post).
    + apply split_last_md_app. exact Hpost.
    + rewrite <- !app_assoc. cbn [app]. rewrite <- ?app_assoc. reflexivity.
  - replace (pre ++ LPAREN :: mid ++ SLASH :: name)
      with ((pre ++ LPAREN :: mid) ++ SLASH :: name)
      by (rewrite <- !app_assoc; reflexivity).
    apply split_last_app. exact Hname.
  - apply split_first_app. exact Hpre.
Qed.

(** The substitution is the rewrite of one region. *)
Lemma sed_line_region_rewrite (line : text) :
  sed_line line = region_rewrite line.
Proof.
  destruct (sed_line_cases line)
    as [[H E]|(pre & mid & name & post & Es & H1 & H2 & H3 & E)]; rewrite E.
  - unfold region_rewrite.
    destruct (split_last_md line) as [[upto post]|] eqn:S1; [|reflexivity].
    destruct (split_last SLASH upto) as [[front name]|] eqn:S2; [|reflexivity].
    destruct (split_first LPAREN front) as [[pre x]|] eqn:S3; [|reflexivity].
    exfalso. apply H.
    apply split_last_md_sound in S1. apply split_last_sound in S2.
    apply split_first_sound in S3. destruct S3 as [S3 _].
    exists pre, x, name, post. rewrite S1, S2, S3.
    rewrite <- !app_assoc. cbn [app]. rewrite <- ?app_assoc. reflexivity.
  - destruct (@cuts_of_link pre mid name post H1 H2 H3) as (_ & C1 & C2 & C3).
    unfold region_rewrite. rewrite Es, C1, C2, C3. reflexivity.
Qed.

Lemma Linked_linked (s : text) : Linked s -> linked s = true.
Proof.
  intros H. destruct (Linked_canonical H) as (pre & mid & name & post & -> & H1 & H2 & H3).
  unfold linked. rewrite split_first_app by assumption.
  apply slash_md_app. apply slash_md_shape.
Qed.

Lemma slash_md_split (s : text) :
  slash_md s = true -> exists b c d, s = b ++ SLASH :: c ++ MD ++ d.
Proof.
  induction s as [|x s IH]; [discriminate|]. cbn [slash_md]. intros H.
  apply orb_true_iff in H. destruct H as [H|H].
  - apply andb_true_iff in H. destruct H as [Hx Hc].
    apply Ascii.eqb_eq in Hx. subst x.
    destruct (contains_md_split _ Hc) as (c & d & ->).
    exists [], c, d. reflexivity.
  - destruct (IH H) as (b & c & d & ->). exists (x :: b), c, d. reflexivity.
Qed.

Lemma linked_Linked (s : text) : linked s = true -> Linked s.
Proof.
  unfold linked. destruct (split_first LPAREN s) as [[a r]|] eqn:S; [|discriminate].
  intros H. apply split_first_sound in S. destruct S as [-> _].
  destruct (slash_md_split _ H) as (b & c & d & ->).
  exists a, b, c, d. reflexivity.
Qed.

Lemma not_linked (s : text) : linked s = false -> ~ Linked s.
Proof. intros H L. apply Linked_linked in L. congruence. Qed.

(** ** Lines of a rewritten file *)

Lemma nth_line_sed_file (content : text) (i : nat) (line : text) :
  nth_error (split_lines content) i = Some line ->
  nth_error (split_lines (sed_file content)) i = Some (sed_line line).
Proof.
  intros H. rewrite split_sed_file. rewrite nth_error_map, H. reflexivity.
Qed.

Lemma count_occ_transforming (l : list text) (f : text) :
  count_occ text_dec (map transforming l) (transforming f)
  = count_occ text_dec l f.
Proof.
  induction l as [|x l IH]; [reflexivity|]. cbn [map count_occ].
  destruct (text_dec (transforming x) (transforming f)) as [E|N];
    destruct (text_dec x f) as [E'|N']; try (rewrite IH; reflexivity).
  - exfalso. apply N'. unfold transforming in E. apply app_inv_head in E. exact E.
  - exfalso. apply N. rewrite E'. reflexivity.
Qed.

Lemma count_occ_filter_true (p : text -> bool) (l : list text) (f : text) :
  p f = true ->
  count_occ text_dec (filter p l) f = count_occ text_dec l f.
Proof.
  intros Hp. induction l as [|x l IH]; [reflexivity|]. cbn [filter count_occ].
  destruct (text_dec x f) as [->|N].
  - rewrite Hp. cbn [count_occ]. destruct (text_dec f f); congruence.
  - destruct (p x); [cbn [count_occ]; destruct (text_dec x f); congruence|exact IH].
Qed.

(** * The claims *)

(** ** C1 *)

(** C1 (the claim as stated does not hold): it is not the case that a
    file with the line [See [Guide](../other/Getting-Started.md) for details.]
    gets the line [See [Guide](Getting-Started for details.] in its place;
    in [guide_file] the line is the second one. *)
Lemma guide_line_parenthesis_not_dropped :
  ~ (forall (content : text) (i : nat),
       nth_error (split_lines content) i = Some guide_line ->
       nth_error (split_lines (sed_file content)) i
       = Some (str "See [Guide](Getting-Started for details.")).
Proof.
  intros H. specialize (H guide_file 1 eq_refl).
  vm_compute in H. discriminate H.
Qed.

(** C1 (amended).  In a file with the line
    [See [Guide](../other/Getting-Started.md) for details.] the rewriter
    puts [See [Guide](Getting-Started) for details.] in its place: the
    match ends with [.md], and the closing parenthesis after it stays. *)
Theorem guide_line_rewritten (content : text) (i : nat) :
  nth_error (split_lines content) i = Some guide_line ->
  nth_error (split_lines (sed_file content)) i
  = Some (str "See [Guide](Getting-Started) for details.").
Proof.
  intros H. rewrite (nth_line_sed_file _ _ H). f_equal.
Qed.

Lemma guide_line_rewritten_witness :
  nth_error (split_lines guide_file) 1 = Some guide_line /\
  nth_error (split_lines (sed_file guide_file)) 1
  = Some (str "See [Guide](Getting-Started) for details.").
Proof.
  split; [reflexivity|]. apply (guide_line_rewritten guide_file 1). reflexivity.
Defined.

(** ** C2 *)

(** C2 (the script falls short of the claim).  The line
    [(note) see [x](a/b.md)] has the occurrence [(a/b.md] of the shape, [b]
    its final path segment.  The line does not become
    [(note) see [x](b)]: the match starts at the first [(] of the line,
    and [(note) see [x]] is lost with the path.  The line becomes [(b)]. *)
Theorem earlier_parenthesis_swallowed :
  sed_file (str "(note) see [x]" ++ LPAREN :: str "a" ++ SLASH :: str "b"
            ++ MD ++ str ")")
  = str "(b)" /\
  sed_file (str "(note) see [x](a/b.md)")
  <> str "(note) see [x]" ++ LPAREN :: str "b" ++ str ")" /\
  lookup [str "Notes.md"] notes_example
  = Some (Regular true (str "(note) see [x](a/b.md)")) /\
  lookup [str "Notes.md"] (fs (main notes_example))
  = Some (Regular true (str "(b)")).
Proof.
  vm_compute. repeat split. intros H. discriminate H.
Qed.

(** ** C3 *)

(** C3.  The rewriter is idempotent: rewriting a file twice gives what
    rewriting it once gives, and a second run of the script on the tree
    the first one left gives the same tree, the same output and the same
    status. *)
Theorem rewriter_idempotent :
  (forall content : text, sed_file (sed_file content) = sed_file content) /\
  (forall t : node, main (fs (main t)) = main t).
Proof.
  split.
  - apply sed_file_idempotent.
  - intros t. unfold main. cbn [fs]. rewrite collect_files_idempotent.
    reflexivity.
Qed.

(** ** C4 *)

(** C4 (the script falls short of the claim).  With two links on a line
    the two are not rewritten each to its own name: one region, from the
    first [(] to the last [.md], is replaced, and the text between the
    links is lost. *)
Theorem two_links_on_a_line_merged :
  sed_file (str "[a](x/a.md) and [b](y/b.md)") = str "[a](b)" /\
  lookup [str "sub"; str "Two.md"] wiki_example
  = Some (Regular true (str "[a](x/a.md) and [b](y/b.md)")) /\
  lookup [str "sub"; str "Two.md"] (fs (main wiki_example))
  = Some (Regular true (str "[a](b)")).
Proof. vm_compute. repeat split. Qed.

(** ** C5 *)

(** C5 (the claim as stated does not hold): not every file under the root
    is visited.  [docs/wiki/.hidden.md] of [wiki_example] is not. *)
Lemma hidden_file_not_visited :
  ~ (forall (t : node) (dir : list text) (name : text) (e : bool) (c : text),
       well_formed t = true ->
       lookup (dir ++ [name]) t = Some (Regular e c) ->
       count_occ text_dec (visited (main t)) (path_string ROOT (dir ++ [name]))
       = 1).
Proof.
  intros H.
  specialize (H wiki_example [] (str ".hidden.md") true (str "[a](x/a.md)")
                eq_refl eq_refl).
  vm_compute in H. discriminate H.
Qed.

(** C5 (amended).  The traversal visits exactly once every regular file
    that lies under the root at a path whose names do not begin with a
    dot, at any depth; when the name of the file ends in [.md] the file is
    announced once and [sed] rewrites it once (if it can be edited). *)
Theorem visible_file_visited_once
        (t : node) (dir : list text) (name : text) (e : bool) (c : text) :
  well_formed t = true ->
  lookup (dir ++ [name]) t = Some (Regular e c) ->
  forallb visible (dir ++ [name]) = true ->
  count_occ text_dec (visited (main t)) (path_string ROOT (dir ++ [name])) = 1 /\
  (is_md name = true ->
   count_occ text_dec (stdout (main t))
             (transforming (path_string ROOT (dir ++ [name]))) = 1 /\
   lookup (dir ++ [name]) (fs (main t))
   = Some (Regular e (if e then sed_file c else c))).
Proof.
  intros W L V.
  assert (N : dir ++ [name] <> []) by (destruct dir; discriminate).
  assert (D : collect_files ROOT t = visit ROOT t).
  { rewrite collect_files_visit. destruct t as [e' c'|es|]; try reflexivity;
      destruct dir; discriminate L. }
  assert (C : count_occ text_dec (seen (snd (visit ROOT t)))
                        (path_string ROOT (dir ++ [name])) = 1).
  { apply (@seen_visit_once (dir ++ [name]) ROOT t e c); assumption. }
  split.
  - unfold main. cbn [visited echo fst seen]. rewrite D. exact C.
  - intros M. split.
    + unfold main. cbn [stdout echo fst out]. rewrite D.
      rewrite count_occ_app, out_visit, count_occ_transforming.
      rewrite count_occ_filter_true.
      * rewrite C. cbn [count_occ].
        destruct (text_dec (str "Links transformed successfully!")
                           (transforming (path_string ROOT (dir ++ [name]))))
          as [E|_]; [discriminate E|reflexivity].
      * rewrite is_md_path_string. exact M.
    + rewrite (@lookup_main_regular (dir ++ [name]) t e c N L).
      rewrite V, is_md_path_string, M. reflexivity.
Qed.

Lemma visible_file_visited_once_witness :
  count_occ text_dec (visited (main wiki_example))
            (path_string ROOT ([str "sub"] ++ [str "Two.md"])) = 1 /\
  count_occ text_dec (stdout (main wiki_example))
            (transforming (path_string ROOT ([str "sub"] ++ [str "Two.md"]))) = 1 /\
  lookup ([str "sub"] ++ [str "Two.md"]) (fs (main wiki_example))
  = Some (Regular true (sed_file (str "[a](x/a.md) and [b](y/b.md)"))).
Proof.
  destruct (@visible_file_visited_once wiki_example [str "sub"] (str "Two.md")
              true (str "[a](x/a.md) and [b](y/b.md)")
              eq_refl eq_refl eq_refl) as [H1 H2].
  split; [exact H1|]. exact (H2 eq_refl).
Defined.

(** ** C6 *)

(** C6.  A file whose name does not end in [.md] has after a run the
    content it had before, whatever the content is. *)
Theorem non_markdown_untouched
        (t : node) (dir : list text) (name : text) (e : bool) (c : text) :
  lookup (dir ++ [name]) t = Some (Regular e c) ->
  is_md name = false ->
  lookup (dir ++ [name]) (fs (main t)) = Some (Regular e c).
Proof.
  intros L M.
  assert (N : dir ++ [name] <> []) by (destruct dir; discriminate).
  rewrite (@lookup_main_regular (dir ++ [name]) t e c N L).
  rewrite is_md_path_string, M, andb_false_r. reflexivity.
Qed.

Lemma non_markdown_untouched_witness :
  lookup ([] ++ [str "notes.txt"]) wiki_example
  = Some (Regular true (str "[a](x/a.md)")) /\
  sed_file (str "[a](x/a.md)") <> str "[a](x/a.md)" /\
  lookup ([] ++ [str "notes.txt"]) (fs (main wiki_example))
  = Some (Regular true (str "[a](x/a.md)")).
Proof.
  split; [reflexivity|]. split.
  - vm_compute. intros H. discriminate H.
  - apply (@non_markdown_untouched wiki_example [] (str "notes.txt")
             true (str "[a](x/a.md)")); reflexivity.
Defined.

(** ** C7 *)

(** C7 (the claim as stated does not hold): a failure of [sed] on a file
    does not make the run exit non-zero.  In [wiki_example] the file
    [docs/wiki/locked.md] cannot be edited, and the status is 0. *)
Lemma failed_edit_exits_zero :
  ~ (forall (t : node) (dir : list text) (name c : text),
       lookup (dir ++ [name]) t = Some (Regular false c) ->
       forallb visible (dir ++ [name]) = true ->
       is_md name = true ->
       exit_status (main t) <> 0).
Proof.
  intros H.
  apply (H wiki_example [] (str "locked.md") (str "[a](x/a.md)"));
    reflexivity.
Qed.

(** C7 (amended).  The process exits with status zero in every case.  A
    file that [sed] cannot edit is left as it is, [sed] reports it on
    standard error when the file is a markdown file the traversal reaches,
    and the other markdown files reached are rewritten all the same.  When
    every file can be edited nothing is written to standard error. *)
Theorem exit_status_always_zero (t : node) :
  exit_status (main t) = 0 /\
  (forall (dir : list text) (name c : text),
     lookup (dir ++ [name]) t = Some (Regular false c) ->
     lookup (dir ++ [name]) (fs (main t)) = Some (Regular false c) /\
     (forallb visible (dir ++ [name]) = true -> is_md name = true ->
      In (sed_diagnostic (path_string ROOT (dir ++ [name])))
         (stderr (main t)))) /\
  (forall (dir : list text) (name c : text),
     lookup (dir ++ [name]) t = Some (Regular true c) ->
     forallb visible (dir ++ [name]) = true -> is_md name = true ->
     lookup (dir ++ [name]) (fs (main t)) = Some (Regular true (sed_file c))) /\
  (all_editable t = true -> stderr (main t) = []).
Proof.
  split; [reflexivity|]. split; [|split].
  - intros dir name c L.
    assert (N : dir ++ [name] <> []) by (destruct dir; discriminate).
    split.
    + rewrite (@lookup_main_regular (dir ++ [name]) t false c N L).
      rewrite andb_false_r. reflexivity.
    + intros V M. unfold main. cbn [stderr echo fst err].
      rewrite collect_files_visit.
      destruct t as [e' c'|es|]; try (destruct dir; discriminate L).
      apply (@err_visit_failed (dir ++ [name]) ROOT (Directory es) c L V).
      rewrite is_md_path_string. exact M.
  - intros dir name c L V M.
    assert (N : dir ++ [name] <> []) by (destruct dir; discriminate).
    rewrite (@lookup_main_regular (dir ++ [name]) t true c N L).
    rewrite V, is_md_path_string, M. reflexivity.
  - intros A. unfold main. cbn [stderr echo fst err].
    rewrite collect_files_visit.
    destruct t as [e c|es|]; try reflexivity.
    apply (err_visit_editable (Directory es) ROOT A).
Qed.

Lemma exit_status_always_zero_witness :
  exit_status (main wiki_example) = 0 /\
  lookup ([] ++ [str "locked.md"]) (fs (main wiki_example))
  = Some (Regular false (str "[a](x/a.md)")) /\
  In (sed_diagnostic (path_string ROOT ([] ++ [str "locked.md"])))
     (stderr (main wiki_example)) /\
  lookup ([str "sub"] ++ [str "Two.md"]) (fs (main wiki_example))
  = Some (Regular true (sed_file (str "[a](x/a.md) and [b](y/b.md)"))).
Proof.
  destruct (exit_status_always_zero wiki_example) as (H1 & H2 & H3 & _).
  destruct (H2 [] (str "locked.md") (str "[a](x/a.md)") eq_refl) as [H4 H5].
  split; [exact H1|]. split; [exact H4|]. split.
  - exact (H5 eq_refl eq_refl).
  - exact (H3 [str "sub"] (str "Two.md") (str "[a](x/a.md) and [b](y/b.md)")
              eq_refl eq_refl eq_refl).
Defined.

(** ** C8 *)

(** C8.  A line of a file that contains no text of the shape
    [(path/name.md] is left as it is, and no content makes [sed] fail: on
    a file that can be edited it writes the rewritten content, prints
    nothing on standard error and returns 0. *)
Theorem unlinked_line_unchanged (content : text) (i : nat) (line : text) :
  nth_error (split_lines content) i = Some line ->
  ~ Linked line ->
  nth_error (split_lines (sed_file content)) i = Some line /\
  (forall file : text, sed_i file true content = (sed_file content, [], 0)).
Proof.
  intros H N. split; [|reflexivity].
  rewrite (nth_line_sed_file _ _ H). rewrite (sed_line_unlinked N). reflexivity.
Qed.

Lemma unlinked_line_unchanged_witness :
  nth_error (split_lines (str "see [x](y.md" ++ NL :: guide_line)) 0
  = Some (str "see [x](y.md") /\
  nth_error (split_lines (sed_file (str "see [x](y.md" ++ NL :: guide_line))) 0
  = Some (str "see [x](y.md").
Proof.
  split; [reflexivity|].
  apply (@unlinked_line_unchanged (str "see [x](y.md" ++ NL :: guide_line) 0
           (str "see [x](y.md")).
  - reflexivity.
  - apply not_linked. reflexivity.
Defined.

(** ** C9 *)

(** C9.  On a line with the shape of a link one region is replaced: the
    line becomes the text before its first [(], then [(], then the text
    between the last [/] before the last [.md] and that [.md], then the
    text after the last [.md].  So it is with every such line of a file:
    the rewritten file has at the place of the line the line rewritten in
    this way.  A file keeps its number of lines. *)
Theorem one_region_replaced :
  (forall line : text,
     Linked line ->
     exists pre rest upto post front name : text,
       split_first LPAREN line = Some (pre, rest) /\
       split_last_md line = Some (upto, post) /\
       split_last SLASH upto = Some (front, name) /\
       sed_line line = pre ++ LPAREN :: name ++ post) /\
  (forall (content : text) (i : nat) (line : text),
     nth_error (split_lines content) i = Some line ->
     Linked line ->
     exists pre rest upto post front name : text,
       split_first LPAREN line = Some (pre, rest) /\
       split_last_md line = Some (upto, post) /\
       split_last SLASH upto = Some (front, name) /\
       nth_error (split_lines (sed_file content)) i
       = Some (pre ++ LPAREN :: name ++ post)) /\
  (forall content : text,
     length (split_lines (sed_file content)) = length (split_lines content)).
Proof.
  assert (R : forall line : text,
             Linked line ->
             exists pre rest upto post front name : text,
               split_first LPAREN line = Some (pre, rest) /\
               split_last_md line = Some (upto, post) /\
               split_last SLASH upto = Some (front, name) /\
               sed_line line = pre ++ LPAREN :: name ++ post).
  { intros line H.
    destruct (Linked_canonical H) as (pre & mid & name & post & -> & H1 & H2 & H3).
    destruct (@cuts_of_link pre mid name post H1 H2 H3) as (C1 & C2 & C3 & _).
    exists pre, (mid ++ SLASH :: name ++ MD ++ post),
      (pre ++ LPAREN :: mid ++ SLASH :: name), post, (pre ++ LPAREN :: mid), name.
    repeat split; auto. apply sed_line_link; assumption. }
  split; [exact R|]. split.
  - intros content i line Hi H.
    destruct (R line H) as (pre & rest & upto & post & front & name
                            & C1 & C2 & C3 & E).
    exists pre, rest, upto, post, front, name. repeat split; auto.
    rewrite (nth_line_sed_file _ _ Hi), E. reflexivity.
  - intros content. rewrite split_sed_file. apply length_map.
Qed.

Lemma one_region_replaced_witness :
  Linked (str "(see) [a](x/a.md) and [b](y/b.md).") /\
  (exists pre rest upto post front name : text,
     split_first LPAREN (str "(see) [a](x/a.md) and [b](y/b.md).")
     = Some (pre, rest) /\
     split_last_md (str "(see) [a](x/a.md) and [b](y/b.md).")
     = Some (upto, post) /\
     split_last SLASH upto = Some (front, name) /\
     sed_line (str "(see) [a](x/a.md) and [b](y/b.md).")
     = pre ++ LPAREN :: name ++ post) /\
  nth_error (split_lines guide_file) 1 = Some guide_line /\
  Linked guide_line /\
  (exists pre rest upto post front name : text,
     split_first LPAREN guide_line = Some (pre, rest) /\
     split_last_md guide_line = Some (upto, post) /\
     split_last SLASH upto = Some (front, name) /\
     nth_error (split_lines (sed_file guide_file)) 1
     = Some (pre ++ LPAREN :: name ++ post)).
Proof.
  assert (L : Linked (str "(see) [a](x/a.md) and [b](y/b.md).")).
  { exists [], (str "see) [a](x"), (str "a"), (str ") and [b](y/b.md).").
    reflexivity. }
  assert (G : Linked guide_line).
  { exists (str "See [Guide]"), (str ".."), (str "other/Getting-Started"),
      (str ") for details."). reflexivity. }
  destruct one_region_replaced as (H1 & H2 & _).
  split; [exact L|]. split; [exact (H1 _ L)|].
  split; [reflexivity|]. split; [exact G|].
  exact (H2 guide_file 1 guide_line eq_refl G).
Defined.

(** ** C10 *)

(** C10.  Entries whose names begin with a dot are never visited: what
    lies at a path with such a name is after the run what it was before
    (a hidden markdown file is not rewritten, and nothing below a hidden
    directory is), and every file the loop reaches lies at a path of names
    that do not begin with a dot. *)
Theorem hidden_entries_skipped (t : node) :
  (forall path : list text,
     forallb visible path = false ->
     lookup path (fs (main t)) = lookup path t) /\
  (forall f : text,
     In f (visited (main t)) ->
     exists path, f = path_string ROOT path /\ forallb visible path = true).
Proof.
  split.
  - intros path V.
    assert (N : path <> []) by (intros ->; discriminate V).
    rewrite (lookup_main t N). rewrite V.
    destruct (lookup path t); reflexivity.
  - intros f H. unfold main in H. cbn [visited echo fst seen] in H.
    rewrite collect_files_visit in H.
    destruct t as [e c|es|]; try destruct H.
    apply (seen_visit_path (Directory es) ROOT f H).
Qed.

Lemma hidden_entries_skipped_witness :
  sed_file (str "[a](x/a.md)") <> str "[a](x/a.md)" /\
  lookup [str ".hidden.md"] (fs (main wiki_example))
  = Some (Regular true (str "[a](x/a.md)")) /\
  exists path,
    str "docs/wiki/sub/Two.md" = path_string ROOT path /\
    forallb visible path = true.
Proof.
  destruct (hidden_entries_skipped wiki_example) as [H1 H2].
  split; [vm_compute; intros H; discriminate H|]. split.
  - rewrite (H1 [str ".hidden.md"] eq_refl). reflexivity.
  - apply H2. vm_compute. right. right. right. left. reflexivity.
Defined.

(** * Further properties of the script *)

(** ** Auxiliary facts *)

Lemma fst_for_entries (body : text -> node -> node * log)
      (es : list (text * node)) :
  fst (for_entries body es)
  = map (fun p => (fst p, fst (body (fst p) (snd p)))) es.
Proof.
  induction es as [|[n c] es IH]; [reflexivity|].
  cbn [for_entries fst snd map]. rewrite IH. reflexivity.
Qed.

Lemma skeleton_visit (n : node) : forall file : text,
  skeleton (fst (visit file n)) = skeleton n.
Proof.
  induction n as [e c| |es IH] using node_induction; intros file.
  - cbn [visit]. destruct (is_md file); reflexivity.
  - reflexivity.
  - cbn [visit]. rewrite collect_files_directory. cbn [fst skeleton].
    rewrite fst_for_entries, map_map. f_equal.
    apply map_ext_in. intros [name child] Hin. cbn [fst snd]. f_equal.
    rewrite Forall_forall in IH. specialize (IH _ Hin). cbn [snd] in IH.
    unfold entry_body. destruct (visible name); [apply IH|reflexivity].
Qed.

Lemma main_visit (es : list (text * node)) :
  collect_files ROOT (Directory es) = visit ROOT (Directory es).
Proof. reflexivity. Qed.

Lemma Subseq_refl (a : text) : Subseq a a.
Proof. induction a; constructor; assumption. Qed.

Lemma Subseq_app (a1 b1 a2 b2 : text) :
  Subseq a1 b1 -> Subseq a2 b2 -> Subseq (a1 ++ a2) (b1 ++ b2).
Proof.
  intros H1 H2. induction H1; cbn [app]; try constructor; assumption.
Qed.

Lemma Subseq_skip (p a b : text) : Subseq a b -> Subseq a (p ++ b).
Proof. intros H. induction p; cbn [app]; [|constructor]; assumption. Qed.

Lemma Subseq_length (a b : text) : Subseq a b -> length a <= length b.
Proof. induction 1; cbn [length]; lia. Qed.

Lemma length_join_le (f : text -> text) (ls : list text) :
  (forall l, length (f l) <= length l) ->
  length (join_lines (map f ls)) <= length (join_lines ls).
Proof.
  intros H. induction ls as [|l ls IH]; [apply le_n|].
  destruct ls as [|l' ls].
  - apply H.
  - change (length (f l ++ NL :: join_lines (map f (l' :: ls)))
            <= length (l ++ NL :: join_lines (l' :: ls))).
    rewrite !length_app. cbn [length]. specialize (H l). lia.
Qed.

Lemma map_fixed (A : Type) (f : A -> A) (l : list A) :
  map f l = l -> forall x, In x l -> f x = x.
Proof.
  induction l as [|y l IH]; intros E x Hin; [destruct Hin|].
  cbn [map] in E. injection E as E1 E2. destruct Hin as [<-|Hin].
  - exact E1.
  - apply IH; assumption.
Qed.

(** A line with the shape of a link loses at least the slash and [.md]. *)
Lemma sed_line_shrinks (s : text) :
  Linked s -> length (sed_line s) + 4 <= length s.
Proof.
  intros H.
  destruct (Linked_canonical H) as (pre & mid & name & post & -> & H1 & H2 & H3).
  rewrite sed_line_link by assumption.
  rewrite !length_app. cbn [length]. rewrite !length_app. cbn [length].
  rewrite !length_app. cbn [length MD]. lia.
Qed.

Lemma find_entry_nodup (name : text) (child : node) :
  forall es : list (text * node),
  nodupb (map fst es) = true -> In (name, child) es ->
  find_entry name es = Some child.
Proof.
  induction es as [|[n c] es IH]; intros W Hin; [destruct Hin|].
  cbn [map fst nodupb] in W. apply andb_true_iff in W. destruct W as [W1 W2].
  apply negb_true_iff in W1. apply existsb_text_eqb in W1.
  cbn [find_entry]. destruct Hin as [E|Hin].
  - inversion E; subst. rewrite text_eqb_refl. reflexivity.
  - destruct (text_eqb n name) eqn:E.
    + exfalso. apply text_eqb_eq in E. subst n. apply W1.
      apply in_map_iff. exists (name, child). auto.
    + apply IH; assumption.
Qed.

(** What the loop reaches is a regular file of the tree. *)
Lemma seen_visit_lookup (n : node) : forall (file f : text),
  well_formed n = true ->
  In f (seen (snd (visit file n))) ->
  exists path e c,
    f = path_string file path /\ forallb visible path = true /\
    lookup path n = Some (Regular e c).
Proof.
  induction n as [e c| |es IH] using node_induction; intros file f W H.
  - exists [], e, c. repeat split.
    cbn [visit] in H. destruct (is_md file); cbn [snd seen] in H;
      destruct H as [H|[]]; auto.
  - destruct H.
  - cbn [visit] in H. rewrite collect_files_directory in H. cbn [snd] in H.
    rewrite seen_for_entries in H. apply in_flat_map in H.
    destruct H as ([name child] & Hin & H). cbn [fst snd] in H.
    unfold entry_body in H. destruct (visible name) eqn:V; [|destruct H].
    cbn [well_formed] in W. apply andb_true_iff in W. destruct W as [Wn We].
    assert (Wc : well_formed child = true).
    { rewrite forallb_forall in We. specialize (We _ Hin). cbn [fst snd] in We.
      apply andb_true_iff in We. tauto. }
    rewrite Forall_forall in IH. destruct (IH _ Hin _ _ Wc H)
      as (path & e & c & -> & Hv & L).
    exists (name :: path), e, c. repeat split.
    + cbn [forallb]. rewrite V, Hv. reflexivity.
    + cbn [lookup]. rewrite (@find_entry_nodup name child es Wn Hin). exact L.
Qed.

Lemma for_entries_hidden (d : text) (es : list (text * node)) :
  forallb (fun p => negb (visible (fst p))) es = true ->
  for_entries (entry_body d) es = (es, no_log).
Proof.
  induction es as [|[name child] es IH]; intros H; [reflexivity|].
  cbn [forallb fst] in H. apply andb_true_iff in H. destruct H as [Hn H].
  apply negb_true_iff in Hn. cbn [for_entries]. rewrite (IH H).
  unfold entry_body. rewrite Hn. reflexivity.
Qed.

Lemma Subseq_join (f : text -> text) (ls : list text) :
  (forall l, Subseq (f l) l) ->
  Subseq (join_lines (map f ls)) (join_lines ls).
Proof.
  intros H. induction ls as [|l ls IH]; [constructor|].
  destruct ls as [|l' ls].
  - apply H.
  - change (Subseq (f l ++ NL :: join_lines (map f (l' :: ls)))
                   (l ++ NL :: join_lines (l' :: ls))).
    apply Subseq_app; [apply H|]. constructor. exact IH.
Qed.

Lemma sed_line_Subseq (s : text) : Subseq (sed_line s) s.
Proof.
  destruct (sed_line_cases s)
    as [[_ E]|(pre & mid & name & post & -> & _ & _ & _ & E)]; rewrite E.
  - apply Subseq_refl.
  - apply Subseq_app; [apply Subseq_refl|]. constructor.
    apply Subseq_skip. constructor.
    apply Subseq_app; [apply Subseq_refl|].
    apply Subseq_skip. apply Subseq_refl.
Qed.

Lemma sed_line_fixed_iff (s : text) : sed_line s = s <-> ~ Linked s.
Proof.
  split.
  - intros E L. pose proof (sed_line_shrinks L) as H. rewrite E in H. lia.
  - apply sed_line_unlinked.
Qed.

(** ** X1 *)

(** X1.  A run keeps the structure of the tree: it adds, removes and
    renames no entry, turns no entry into one of another kind and changes
    no permission; only contents of regular files change. *)
Theorem run_keeps_structure (t : node) :
  skeleton (fs (main t)) = skeleton t.
Proof.
  unfold main. cbn [fs]. rewrite collect_files_visit.
  destruct t as [e c|es|]; try reflexivity. apply skeleton_visit.
Qed.

(** ** X2 *)

(** X2.  Standard output holds one line [Transforming links in <file>] for
    each regular file reached whose path ends in [.md], in the order of the
    traversal, and then the completion notice as its last line. *)
Theorem stdout_announces_markdown (t : node) :
  stdout (main t)
  = map transforming (filter is_md (visited (main t))) ++ [COMPLETION].
Proof.
  unfold main. cbn [stdout visited echo fst out seen].
  rewrite collect_files_visit. destruct t as [e c|es|]; try reflexivity.
  rewrite out_visit. reflexivity.
Qed.

(** ** X4 *)

(** X4.  A rewritten file has no line with the shape of a link left: no
    [(] that is followed by a [/] that is followed by [.md]. *)
Theorem no_link_left (content line : text) :
  In line (split_lines (sed_file content)) -> ~ Linked line.
Proof.
  rewrite split_sed_file. intros H. apply in_map_iff in H.
  destruct H as (l & <- & _).
  destruct (sed_line_cases l)
    as [[N E]|(pre & mid & name & post & _ & H1 & H2 & H3 & E)]; rewrite E.
  - exact N.
  - apply rewritten_not_Linked; assumption.
Qed.

Lemma no_link_left_witness :
  In (str "See [Guide](Getting-Started) for details.")
     (split_lines (sed_file guide_file)) /\
  ~ Linked (str "See [Guide](Getting-Started) for details.").
Proof.
  assert (H : In (str "See [Guide](Getting-Started) for details.")
                 (split_lines (sed_file guide_file))).
  { vm_compute. right. left. reflexivity. }
  split; [exact H|]. exact (@no_link_left guide_file _ H).
Defined.

(** ** X5 *)

(** X5.  The [g] flag of the command has no effect: on every line the
    substitution replaces at most one match, so it gives what the command
    without the flag gives, whatever the bound on the replacements. *)
Theorem global_flag_without_effect (fuel : nat) (s : text) :
  subst_g (S fuel) link_re link_repl s = subst_first link_re link_repl s.
Proof.
  rewrite sed_line_fuel. unfold subst_first.
  destruct (Linked_dec s) as [H|H].
  - destruct (Linked_canonical H) as (pre & mid & name & post & -> & H1 & H2 & H3).
    rewrite sed_line_link, search_link by assumption.
    unfold expand, link_repl. cbn [flat_map m_eo]. rewrite group1_link.
    rewrite app_nil_r. reflexivity.
  - rewrite search_none by assumption. apply sed_line_unlinked. exact H.
Qed.

(** ** X6 *)

(** X6.  The substitution changes a line exactly when the line has the
    shape of a link, and then the line gets shorter by four bytes at least
    (the slash and [.md]). *)
Theorem line_changed_iff_linked (s : text) :
  (sed_line s = s <-> ~ Linked s) /\
  (Linked s -> length (sed_line s) + 4 <= length s).
Proof. split; [apply sed_line_fixed_iff|apply sed_line_shrinks]. Qed.

Lemma line_changed_iff_linked_witness :
  Linked (str "(/.md") /\
  sed_line (str "(/.md") <> str "(/.md" /\
  length (sed_line (str "(/.md")) + 4 <= length (str "(/.md").
Proof.
  assert (L : Linked (str "(/.md")) by (exists [], [], [], []; reflexivity).
  destruct (line_changed_iff_linked (str "(/.md")) as [H1 H2].
  split; [exact L|]. split.
  - intros E. exact (proj1 H1 E L).
  - exact (H2 L).
Defined.

(** ** X7 *)

(** X7.  The test [[[ "$file" == *.md ]]] is made on the whole path, yet
    its outcome depends on the name of the file alone: a directory whose
    name ends in [.md] does not make the files in it markdown files. *)
Theorem markdown_test_looks_at_name (d name : text) (dir : list text) :
  is_md (path_join d name) = is_md name /\
  is_md (path_string d (dir ++ [name])) = is_md name.
Proof. split; [apply is_md_join|apply is_md_path_string]. Qed.

(** ** X8 *)

(** X8.  When [docs/wiki] is no directory (missing, a regular file, a
    special file) or a directory without a visible entry (an empty one
    among them), the run changes nothing, prints the completion notice and
    nothing else, and exits with status 0. *)
Theorem nothing_to_visit_no_effect (t : node) :
  nothing_to_visit t = true ->
  main t = mk_run t [COMPLETION] [] [] 0.
Proof.
  intros H. unfold main. destruct t as [e c|es|]; try reflexivity.
  rewrite collect_files_directory. cbn [nothing_to_visit] in H.
  rewrite (for_entries_hidden ROOT es H). reflexivity.
Qed.

Lemma nothing_to_visit_no_effect_witness :
  nothing_to_visit
    (Directory [(str ".git", Directory [(str "a.md", Regular true (str "(x/a.md"))])])
  = true /\
  main (Directory [(str ".git", Directory [(str "a.md", Regular true (str "(x/a.md"))])])
  = mk_run
      (Directory [(str ".git", Directory [(str "a.md", Regular true (str "(x/a.md"))])])
      [COMPLETION] [] [] 0.
Proof.
  split; [reflexivity|].
  apply (@nothing_to_visit_no_effect
           (Directory [(str ".git",
                        Directory [(str "a.md", Regular true (str "(x/a.md"))])])).
  reflexivity.
Defined.

(** ** X9 *)

(** X9.  The match the search reports on a line is text of the shape
    [(<path>/<name>.md], it is the leftmost such text of the line and the
    longest one from its start: no occurrence of the shape starts before
    it or ends after it. *)
Theorem match_leftmost_longest (s pre : text) (m : rmatch) :
  search link_re s = Some (pre, m) ->
  (exists b c, s = pre ++ LPAREN :: b ++ SLASH :: c ++ MD ++ m_eo m) /\
  (forall a b c d : text,
     s = a ++ LPAREN :: b ++ SLASH :: c ++ MD ++ d ->
     length pre <= length a /\ length (m_eo m) <= length d).
Proof.
  intros S. split; [|exact (search_leftmost_longest S)].
  assert (L : Linked s) by (eapply search_Linked; eauto).
  destruct (Linked_canonical L) as (pre0 & mid & name & post & -> & H1 & H2 & H3).
  rewrite search_link in S by assumption. inversion S; subst pre m.
  exists mid, name. reflexivity.
Qed.

Lemma match_leftmost_longest_witness :
  search link_re (str "x (a/b.md) (c/d.md)")
  = Some (str "x ", mk_rmatch (str "d.md)") (str ".md)") (str ")")) /\
  (exists b c, str "x (a/b.md) (c/d.md)"
               = str "x " ++ LPAREN :: b ++ SLASH :: c ++ MD ++ str ")") /\
  (forall a b c d : text,
     str "x (a/b.md) (c/d.md)" = a ++ LPAREN :: b ++ SLASH :: c ++ MD ++ d ->
     length (str "x ") <= length a /\ length (str ")") <= length d).
Proof.
  assert (S : search link_re (str "x (a/b.md) (c/d.md)")
              = Some (str "x ", mk_rmatch (str "d.md)") (str ".md)") (str ")")))
    by reflexivity.
  split; [exact S|]. exact (@match_leftmost_longest _ _ _ S).
Defined.

(** ** X10 *)

(** X10.  The rewrite only deletes: a rewritten line is the line with some
    bytes left out, a rewritten file is the file with some bytes left out,
    and so a file never grows. *)
Theorem rewrite_only_deletes :
  (forall s : text, Subseq (sed_line s) s) /\
  (forall content : text,
     Subseq (sed_file content) content /\
     length (sed_file content) <= length content).
Proof.
  split; [exact sed_line_Subseq|]. intros content.
  assert (H : Subseq (sed_file content) content).
  { unfold sed_file. rewrite <- (join_split content) at 2.
    apply Subseq_join. exact sed_line_Subseq. }
  split; [exact H|]. apply Subseq_length. exact H.
Qed.

(** ** X11 *)

(** X11.  [sed] leaves a file byte for byte as it is exactly when no line
    of the file has the shape of a link. *)
Theorem file_unchanged_iff (content : text) :
  sed_file content = content <->
  (forall line, In line (split_lines content) -> ~ Linked line).
Proof.
  split.
  - intros E line Hin. apply sed_line_fixed_iff.
    apply (f_equal split_lines) in E. rewrite split_sed_file in E.
    exact (@map_fixed text sed_line (split_lines content) E line Hin).
  - intros H. unfold sed_file.
    rewrite (map_ext_in sed_line (fun l => l)).
    + rewrite map_id. apply join_split.
    + intros l Hl. apply sed_line_unlinked. apply H. exact Hl.
Qed.

Lemma file_unchanged_iff_witness :
  (forall line, In line (split_lines (str "see [x](y.md" ++ NL :: str "(a/b"))
                -> ~ Linked line) /\
  sed_file (str "see [x](y.md" ++ NL :: str "(a/b")
  = str "see [x](y.md" ++ NL :: str "(a/b".
Proof.
  assert (H : forall line,
             In line (split_lines (str "see [x](y.md" ++ NL :: str "(a/b"))
             -> ~ Linked line).
  { intros line [<-|[<-|[]]]; apply not_linked; reflexivity. }
  split; [exact H|].
  exact (proj2 (file_unchanged_iff (str "see [x](y.md" ++ NL :: str "(a/b")) H).
Defined.

(** ** X12 *)

(** X12.  In a tree with names as a file system has them, the branch of
    [-f] runs only on regular files of the tree that lie at a path of
    visible names, and on none of them twice. *)
Theorem visited_are_visible_regular_files (t : node) :
  well_formed t = true ->
  (forall f : text,
     In f (visited (main t)) ->
     exists dir name e c,
       f = path_string ROOT (dir ++ [name]) /\
       forallb visible (dir ++ [name]) = true /\
       lookup (dir ++ [name]) t = Some (Regular e c)) /\
  NoDup (visited (main t)).
Proof.
  intros W.
  assert (V : visited (main t) = match t with
                                 | Directory _ => seen (snd (visit ROOT t))
                                 | _ => []
                                 end).
  { unfold main. cbn [visited echo fst seen]. rewrite collect_files_visit.
    destruct t; reflexivity. }
  assert (Sound : forall f, In f (visited (main t)) ->
            exists path e c, f = path_string ROOT path /\
              forallb visible path = true /\
              lookup path t = Some (Regular e c)).
  { intros f H. rewrite V in H. destruct t as [e c|es|]; try destruct H.
    apply seen_visit_lookup; assumption. }
  split.
  - intros f H. destruct (Sound f H) as (path & e & c & E & Hv & L).
    destruct (exists_last (l := path)) as (dir & name & ->).
    + intros ->. rewrite V in H. destruct t; try destruct H. discriminate L.
    + exists dir, name, e, c. auto.
  - apply (NoDup_count_occ text_dec). intros f.
    destruct (in_dec text_dec f (visited (main t))) as [H|H].
    + destruct (Sound f H) as (path & e & c & -> & Hv & L).
      rewrite V in *. destruct t as [e' c'|es|]; try destruct H.
      rewrite (@seen_visit_once path ROOT (Directory es) e c W L Hv). apply le_n.
    + apply (count_occ_not_In text_dec) in H. rewrite H. lia.
Qed.

Lemma visited_are_visible_regular_files_witness :
  well_formed wiki_example = true /\
  (exists dir name e c,
     str "docs/wiki/sub/Two.md" = path_string ROOT (dir ++ [name]) /\
     forallb visible (dir ++ [name]) = true /\
     lookup (dir ++ [name]) wiki_example = Some (Regular e c)) /\
  NoDup (visited (main wiki_example)).
Proof.
  destruct (visited_are_visible_regular_files wiki_example eq_refl) as [H1 H2].
  split; [reflexivity|]. split; [|exact H2].
  apply H1. vm_compute. right. right. right. left. reflexivity.
Defined.
